(** * WeVid audio analyzer: a shallow embedding of [audio_analyzer.py]

    The development follows the source file top to bottom:

    - Python values the program computes with ([float] as IEEE 754
      binary64, exceptions, JSON objects with optional fields);
    - the [AudioSegment] dataclass;
    - [AudioAnalyzer]: [_upload_file] and [analyze_audio], as interaction
      trees over the file-system, HTTP and sleep events the code performs,
      with a fuel-indexed runner against a scripted world;
    - [ContentMatcher]: [add_segments] and [match_content].

    Modelling conventions.  [print] calls are dropped (the trace of a run
    records file-system, HTTP and sleep events only).  A JSON object is a
    record of the keys the program reads, each of them optional; a key that
    is present holds a value of the type the service documents for it, and
    the [sentiment] of a chapter may also hold [null]: the program copies
    it into the segment as [None], and [match_content] compares it with
    [==] like any other value.  [requests.post] with a generator as [data]
    is modelled as the library runs it: the request is begun (request line
    and headers sent), then the generator is iterated, which opens the
    file, then the chunks are sent and the response is read. *)

From Stdlib Require Import ZArith String List Floats Sorted Lia Bool.
From stdpp Require Import gmap strings list sorting pretty.
From ITree Require Import ITree ITreeFacts.
From Paco Require Import paco.

Set Warnings "-inexact-float".
Local Open Scope string_scope.
Local Open Scope Z_scope.

(* ================================================================== *)
(** * Part I: definitions *)
(* ================================================================== *)

(** ** Python floats

    A Python [float] is an IEEE 754 binary64 number.  It is modelled by the
    Standard Library's [spec_float] at precision 53 and maximal exponent
    1024, whose operations round to nearest, ties to even, as CPython's
    do. *)
Module PyFloat.

Abbreviation float := spec_float.

(** [x + y] and [x * y] on floats. *)
Definition add (x y : float) : float := SF64add x y.
Definition mul (x y : float) : float := SF64mul x y.

(** [x < y], [x > y] and [x == y] on floats. *)
Definition ltb (x y : float) : bool := SFltb x y.
Definition gtb (x y : float) : bool := SFltb y x.
Definition eqb (x y : float) : bool := SFeqb x y.
Definition geb (x y : float) : bool := SFleb y x.

(** The conversion of a Python [int] to [float] that [int * float]
    performs.  ([len] results are below [2^63], far from the range where
    CPython raises [OverflowError] instead of rounding to infinity.) *)
Definition of_int (z : Z) : float := binary_normalize prec emax z 0 false.

(** The float literals of the source, as mantissa and exponent. *)
Definition f0_0 : float := S754_zero false.
Definition f0_5 : float := S754_finite false 4503599627370496 (-53).
Definition f0_3 : float := S754_finite false 5404319552844595 (-54).
Definition f1_0 : float := S754_finite false 4503599627370496 (-52).

(** Two more doubles, used by the scoring example of the specification:
    the doubles nearest to 0.8 and to 0.64. *)
Definition f0_8 : float := S754_finite false 7205759403792794 (-53).
Definition f0_64 : float := S754_finite false 5764607523034235 (-53).

(** The double just above [f0_64]; Python prints it
    [0.6400000000000001]. *)
Definition f0_64_up : float := S754_finite false 5764607523034236 (-53).

(** A float that compares greater than zero: positive and not NaN. *)
Definition positive (x : float) : Prop := gtb x f0_0 = true.

(** A float that is not the negative zero. *)
Definition not_neg_zero (x : float) : Prop := x <> S754_zero true.

(** The sign of a float that has one. *)
Definition has_sign (s : bool) (x : float) : Prop :=
  match x with
  | S754_zero s' | S754_infinity s' | S754_finite s' _ _ => s' = s
  | S754_nan => True
  end.

End PyFloat.

Import PyFloat.

(** ** Exceptions *)

Inductive exn :=
| ValueError (msg : string)
| FileNotFoundError (msg : string)
| ConnectionError (msg : string)
| RuntimeError (msg : string)
| KeyError (key : string).

(** [str(e)]: the message, and for a [KeyError] the [repr] of the key. *)
Definition str (e : exn) : string :=
  match e with
  | ValueError msg | FileNotFoundError msg | ConnectionError msg | RuntimeError msg => msg
  | KeyError key => "'" ++ key ++ "'"
  end.

(** The [OSError] that [open] raises on a file it cannot open (an instance
    of [FileNotFoundError], [PermissionError], [IsADirectoryError], ...),
    given by its [repr], such as [IsADirectoryError(21, 'Is a directory')].
    The program never sees it as such: it is raised inside [requests.post],
    which wraps it. *)
Record os_error := mk_os_error {
  os_repr : string
}.

(** ** JSON objects of the service *)

(** An element of the [chapters] array.  The key [sentiment] may be
    missing ([None]), hold [null] ([Some None]) or hold a string. *)
Module Chapter.
Record t := mk {
  start : option Z;
  end_ : option Z;
  summary : option string;
  topics : option (list string);
  sentiment : option (option string);
  confidence : option float
}.
End Chapter.

(** The object returned by [response.json()], restricted to the keys the
    program reads. *)
Module Json.
Record t := mk {
  upload_url : option string;
  id : option string;
  status : option string;
  error : option string;
  chapters : option (list Chapter.t)
}.
Definition empty : t := mk None None None None None.
End Json.

(** A [requests.Response]. *)
Module Response.
Record t := mk {
  status_code : Z;
  text : string;
  json : Json.t
}.
End Response.

(** The [data] dict posted to [/transcript]. *)
Record TranscriptRequest := mkTranscriptRequest {
  audio_url : string;
  auto_highlights : bool;
  iab_categories : bool;
  sentiment_analysis : bool
}.

(** The body of a POST as the service receives it: the chunks that the
    generator given as [data] yielded, or the dict given as [json]. *)
Inductive Body :=
| DataStream (chunks : list (list Byte.byte))
| JsonBody (data : TranscriptRequest).

(** ** The [AudioSegment] dataclass

    The field [sentiment] holds a [str] or [None]: the dataclass does not
    check its annotations, and [analyze_audio] stores what the service
    sent. *)

Record AudioSegment := mkAudioSegment {
  start_ms : Z;
  end_ms : Z;
  text : string;
  topics : list string;
  sentiment : option string;
  confidence : float
}.

(** ** Events and programs *)

(** What the program asks of its environment.  A POST whose body is a
    generator takes two events, with the events of the generator between
    them: [requests_post_begin] sends the request line and the headers,
    [requests_post] sends the body and reads the response.  A POST whose
    body is a dict is the one event [requests_post]. *)
Variant ioE : Type -> Type :=
| os_path_exists (path : string) : ioE bool
| open_rb (path : string) : ioE (os_error + list Byte.byte)
| requests_post_begin (url : string) (headers : gmap string string) : ioE unit
| requests_post (url : string) (headers : gmap string string) (body : Body) : ioE Response.t
| requests_get (url : string) (headers : gmap string string) : ioE Response.t
| time_sleep (secs : Z) : ioE unit.

(** A Python computation: an interaction tree that ends in an exception or
    in a value. *)
Definition py (R : Type) : Type := itree ioE (exn + R).

Definition ret {R} (r : R) : py R := Ret (inr r).
Definition raise {R} (e : exn) : py R := Ret (inl e).
Definition bind {A B} (m : py A) (k : A -> py B) : py B :=
  ITree.bind m (fun r => match r with inl e => Ret (inl e) | inr a => k a end).
Definition perform {X} (e : ioE X) : py X :=
  ITree.bind (ITree.trigger e) (fun x => Ret (inr x)).
Definition lift {R} (r : exn + R) : py R := Ret r.

(** [try: m  except Exception as e: h e] *)
Definition try_except {A} (m : py A) (h : exn -> py A) : py A :=
  ITree.bind m (fun r => match r with inl e => h e | inr a => Ret (inr a) end).

Declare Scope py_scope.
Delimit Scope py_scope with py.
Notation "x <~ m ; k" := (bind m (fun x => k))
  (at level 20, m at level 100, k at level 200, right associativity,
   format "'[v' x  <~  m ; '/' k ']'") : py_scope.
Local Open Scope py_scope.

(** ** [AudioAnalyzer] *)

Record AudioAnalyzer := mkAudioAnalyzer {
  api_key : string;
  base_url : string;
  headers : gmap string string
}.

(** [AudioAnalyzer.__init__], given the value of
    [os.getenv('ASSEMBLYAI_API_KEY')]. *)
Definition AudioAnalyzer_init (getenv : option string) : exn + AudioAnalyzer :=
  match getenv with
  | None | Some "" =>
      inl (ValueError "AssemblyAI API key not found in environment variables")
  | Some key =>
      inr {| api_key := key;
             base_url := "https://api.assemblyai.com/v2";
             headers := {[ "authorization" := key ]} |}
  end.

(** The chunks the generator [read_file] yields: [f.read(n)] until it
    returns the empty bytes object. *)
Fixpoint read_chunks (fuel n : nat) (content : list Byte.byte) : list (list Byte.byte) :=
  match fuel with
  | O => []
  | S fuel' =>
      let data := take n content in
      match data with
      | [] => []
      | _ => data :: read_chunks fuel' n (drop n content)
      end
  end.

Definition chunk_size : nat := Z.to_nat 5242880.

Definition read_file (content : list Byte.byte) : list (list Byte.byte) :=
  read_chunks (length content) chunk_size content.

(** The generator object [read_file(file_path)], iterated to its end: it
    opens the file, which may raise, and yields the chunks.  Nothing of it
    runs before it is iterated. *)
Definition read_file_generator (file_path : string)
  : itree ioE (os_error + list (list Byte.byte)) :=
  ITree.bind (ITree.trigger (open_rb file_path))
    (fun opened =>
       match opened with
       | inl e => Ret (inl e)
       | inr content => Ret (inr (read_file content))
       end).

(** [requests.post(url, headers=headers, data=<generator>)], as the
    library runs it.  [requests] prepares a chunked request without
    iterating the generator; urllib3 sends the request line and the
    headers, then iterates the generator and sends each chunk, then reads
    the response.  An [OSError] out of the generator is taken for a failure
    of the connection: urllib3 wraps it in
    [ProtocolError('Connection aborted.', e)], and [requests] raises
    [ConnectionError] of that, whose [str] is the [repr] of the pair. *)
Definition requests_post_data (url : string) (headers : gmap string string)
  (data : itree ioE (os_error + list (list Byte.byte))) : py Response.t :=
  ITree.bind (ITree.trigger (requests_post_begin url headers))
    (fun _ =>
       ITree.bind data
         (fun yielded =>
            match yielded with
            | inl e => raise (ConnectionError ("('Connection aborted.', " ++ os_repr e ++ ")"))
            | inr chunks => perform (requests_post url headers (DataStream chunks))
            end)).

(** [_upload_file] *)
Definition _upload_file (self : AudioAnalyzer) (file_path : string) : py string :=
  upload_response <~
    requests_post_data (base_url self ++ "/upload") (headers self)
                       (read_file_generator file_path);
  if negb (Response.status_code upload_response =? 200)
  then raise (RuntimeError ("Upload failed: " ++ Response.text upload_response))
  else
    match Json.upload_url (Response.json upload_response) with
    | Some url => ret url
    | None => raise (KeyError "upload_url")
    end.

(** One chapter of the response to one [AudioSegment] (lines 138-145 of
    the source): subscripts raise [KeyError], [.get] takes a default. *)
Definition segment_of_chapter (chapter : Chapter.t) : exn + AudioSegment :=
  match Chapter.start chapter with
  | None => inl (KeyError "start")
  | Some start =>
      match Chapter.end_ chapter with
      | None => inl (KeyError "end")
      | Some end_ =>
          inr {| start_ms := start;
                 end_ms := end_;
                 text := default "" (Chapter.summary chapter);
                 topics := default [] (Chapter.topics chapter);
                 sentiment := default (Some "neutral") (Chapter.sentiment chapter);
                 confidence := default f1_0 (Chapter.confidence chapter) |}
      end
  end.

(** The loop [for chapter in chapters: ... segments.append(segment)]. *)
Fixpoint segments_of_chapters (chapters : list Chapter.t) (segments : list AudioSegment)
  : exn + list AudioSegment :=
  match chapters with
  | [] => inr segments
  | chapter :: rest =>
      match segment_of_chapter chapter with
      | inl e => inl e
      | inr segment => segments_of_chapters rest (segments ++ [segment])
      end
  end.

(** "Process results into segments" (lines 129-148). *)
Definition process_results (transcript : Json.t) : exn + list AudioSegment :=
  let segments := [] in
  let chapters := default [] (Json.chapters transcript) in
  match chapters with
  | [] => inr segments
  | _ => segments_of_chapters chapters segments
  end.

(** The body of the loop [while True] (lines 114-127): [inl tt] goes
    round again, [inr] leaves the loop, by [break] with the transcript or by
    [raise]. *)
Definition poll_once (self : AudioAnalyzer) (polling_endpoint : string) (_ : unit)
  : itree ioE (unit + (exn + Json.t)) :=
  ITree.bind (ITree.trigger (requests_get polling_endpoint (headers self)))
    (fun response =>
       let transcript := Response.json response in
       let status := Json.status transcript in
       if decide (status = Some "completed") then Ret (inr (inr transcript))
       else if decide (status = Some "error") then
         let error := default "Unknown error" (Json.error transcript) in
         Ret (inr (inl (RuntimeError ("Transcription failed: " ++ error))))
       else ITree.bind (ITree.trigger (time_sleep 30)) (fun _ => Ret (inl tt))).

Definition poll (self : AudioAnalyzer) (polling_endpoint : string) : py Json.t :=
  ITree.iter (poll_once self polling_endpoint) tt.

(** [analyze_audio] *)
Definition analyze_audio (self : AudioAnalyzer) (audio_path : string) (is_url : bool)
  : py (list AudioSegment) :=
  missing <~ (if negb is_url
              then found <~ perform (os_path_exists audio_path); ret (negb found)
              else ret false);
  if (missing : bool)
  then raise (FileNotFoundError ("Audio file not found: " ++ audio_path))
  else
    audio_url <~
      try_except (if is_url then ret audio_path else _upload_file self audio_path)
                 (fun e => raise (RuntimeError ("Failed to upload file: " ++ str e)));
    let data := {| audio_url := audio_url;
                   auto_highlights := true;
                   iab_categories := true;
                   sentiment_analysis := true |} in
    response <~
      perform (requests_post (base_url self ++ "/transcript") (headers self) (JsonBody data));
    if negb (Response.status_code response =? 200)
    then raise (RuntimeError ("Failed to create transcription. Status code: "
                              ++ pretty (Response.status_code response)))
    else
      transcript_id <~
        match Json.id (Response.json response) with
        | Some transcript_id => ret transcript_id
        | None => raise (RuntimeError "Failed to get transcription ID from API response")
        end;
      let polling_endpoint := base_url self ++ "/transcript/" ++ transcript_id in
      transcript <~ poll self polling_endpoint;
      lift (process_results transcript).

(** ** [sorted(iterable, key=..., reverse=...)]

    Python's built-in [sorted] is a stable sort that compares keys with [<]
    only.  With [reverse=True] CPython reverses the list, sorts it
    ascending and reverses the result, which keeps the sort stable.  The
    ascending sort is modelled by insertion from the left, each element
    going after the elements that are not greater than it. *)
Module PySorted.
Section Sorted.
Context {A K : Type} (key : A -> K) (lt : K -> K -> bool).

Fixpoint insort (x : A) (l : list A) : list A :=
  match l with
  | [] => [x]
  | y :: l' => if lt (key x) (key y) then x :: y :: l' else y :: insort x l'
  end.

Definition sort_ascending (l : list A) : list A :=
  fold_left (fun acc x => insort x acc) l [].

Definition sorted (reverse : bool) (l : list A) : list A :=
  if reverse then rev (sort_ascending (rev l)) else sort_ascending l.

(** The order of two neighbours [x], [y] of a list in ascending, and in
    descending order of keys: the later one is not less, respectively not
    greater, than the earlier one. *)
Definition ascending (x y : A) : Prop := lt (key y) (key x) = false.
Definition descending (x y : A) : Prop := lt (key x) (key y) = false.

End Sorted.
End PySorted.

(** ** [ContentMatcher] *)

(** The [user_preferences] dict, restricted to the two keys
    [match_content] reads with [.get]. *)
Record Preferences := mkPreferences {
  pref_topics : option (list string);
  preferred_tone : option string
}.

(** The matcher object: its only attribute is the list [self.segments]. *)
Record ContentMatcher := mkContentMatcher {
  segments : list AudioSegment
}.

(** [ContentMatcher.__init__] *)
Definition ContentMatcher_init : ContentMatcher :=
  {| segments := [] |}.

(** [add_segments]: [self.segments.extend(segments)] *)
Definition add_segments (self : ContentMatcher) (segs : list AudioSegment)
  : ContentMatcher :=
  {| segments := segments self ++ segs |}.

(** [set(segment.topics) & set(user_preferences.get('topics', []))] *)
Definition common_topics (segment : AudioSegment) (user_preferences : Preferences)
  : gset string :=
  list_to_set (topics segment) ∩ list_to_set (default [] (pref_topics user_preferences)).

(** [segment.sentiment == user_preferences.get('preferred_tone')].  Each
    side is a [str] or [None] ([.get] gives [None] for a missing key): two
    strings are compared as strings, a string is not equal to [None], and
    [None == None] is true. *)
Definition tone_matches (segment : AudioSegment) (user_preferences : Preferences)
  : bool :=
  match sentiment segment, preferred_tone user_preferences with
  | Some sentiment, Some tone => String.eqb sentiment tone
  | None, None => true
  | _, _ => false
  end.

(** The body of the [for] loop of [match_content] up to the test
    [score > 0]: the four assignments to [score], in order. *)
Definition score (segment : AudioSegment) (user_preferences : Preferences) : float :=
  let score := f0_0 in
  let score :=
    add score (mul (of_int (Z.of_nat (size (common_topics segment user_preferences)))) f0_5) in
  let score := if tone_matches segment user_preferences then add score f0_3 else score in
  let score := mul score (confidence segment) in
  score.

(** The list [matches] at the end of the [for] loop. *)
Fixpoint collect_matches (segs : list AudioSegment) (user_preferences : Preferences)
  : list (AudioSegment * float) :=
  match segs with
  | [] => []
  | segment :: rest =>
      let score := score segment user_preferences in
      if gtb score (of_int 0)
      then (segment, score) :: collect_matches rest user_preferences
      else collect_matches rest user_preferences
  end.

(** [match_content]: [sorted(matches, key=lambda x: x[1], reverse=True)] *)
Definition match_content (self : ContentMatcher) (user_preferences : Preferences)
  : list (AudioSegment * float) :=
  PySorted.sorted snd ltb true (collect_matches (segments self) user_preferences).

(** *** The scoring rule in the words of the specification *)

Definition spec_topic_score (segment : AudioSegment) (T : list string) : float :=
  let shared : gset string := list_to_set (topics segment) ∩ list_to_set T in
  mul (of_int (Z.of_nat (size shared))) f0_5.

Definition spec_tone_score (segment : AudioSegment) (P : option string) : float :=
  if decide (sentiment segment = P) then f0_3 else of_int 0.

Definition spec_final_score (segment : AudioSegment) (T : list string) (P : option string)
  : float :=
  mul (add (spec_topic_score segment T) (spec_tone_score segment P)) (confidence segment).

(** The segment and the preferences of the specification's scoring
    example. *)
Definition example_segment : AudioSegment :=
  {| start_ms := 0; end_ms := 1000; text := "";
     topics := ["tech"; "sports"]; sentiment := Some "positive"; confidence := f0_8 |}.

Definition example_preferences : Preferences :=
  {| pref_topics := Some ["tech"]; preferred_tone := Some "positive" |}.


(** ** Running a program against a scripted world *)

(** The environment: the file system, and the service's answer to each
    request.  The answer to a GET may change from one request to the next;
    [get n] answers the [n]-th one, counted from 0. *)
Record World := mkWorld {
  exists_ : string -> bool;
  file : string -> os_error + list Byte.byte;
  post : string -> gmap string string -> Body -> Response.t;
  get : nat -> string -> gmap string string -> Response.t
}.

(** What a run leaves behind, one entry per event: [EvPostBegin] for a
    streamed POST that is begun, [EvPost] for a POST whose body is sent and
    whose response is read. *)
Inductive Event :=
| EvExists (path : string)
| EvOpen (path : string)
| EvPostBegin (url : string)
| EvPost (url : string) (body : Body)
| EvGet (url : string)
| EvSleep (secs : Z).

Definition is_network (ev : Event) : bool :=
  match ev with
  | EvPostBegin _ | EvPost _ _ | EvGet _ => true
  | _ => false
  end.

(** The world's answer to an event, the number of GETs after it, and its
    entry in the trace. *)
Definition answer (w : World) (gets : nat) {X} (e : ioE X) : X * nat * Event :=
  match e with
  | os_path_exists path => (exists_ w path, gets, EvExists path)
  | open_rb path => (file w path, gets, EvOpen path)
  | requests_post_begin url hs => (tt, gets, EvPostBegin url)
  | requests_post url hs body => (post w url hs body, gets, EvPost url body)
  | requests_get url hs => (get w gets url hs, S gets, EvGet url)
  | time_sleep secs => (tt, gets, EvSleep secs)
  end.

(** The state of a run: [result] is [None] while the program has not
    returned. *)
Record Outcome (R : Type) := mkOutcome {
  result : option R;
  gets : nat;
  trace : list Event;
  fuel_left : nat
}.
Arguments mkOutcome {R}.
Arguments result {R}.
Arguments gets {R}.
Arguments trace {R}.
Arguments fuel_left {R}.

(** [run w fuel gets trace t] runs [t] for at most [fuel] steps (events
    and the silent steps between loop iterations). *)
Fixpoint run {R} (w : World) (fuel : nat) (gets : nat) (trace : list Event)
  (t : itree ioE R) : Outcome R :=
  match observe t with
  | RetF r => mkOutcome (Some r) gets trace fuel
  | TauF t' =>
      match fuel with
      | O => mkOutcome None gets trace O
      | S fuel' => run w fuel' gets trace t'
      end
  | VisF e k =>
      match fuel with
      | O => mkOutcome None gets trace O
      | S fuel' =>
          let '(x, gets', ev) := answer w gets e in
          run w fuel' gets' (trace ++ [ev]) (k x)
      end
  end.

Definition execute {R} (w : World) (fuel : nat) (t : itree ioE R) : Outcome R :=
  run w fuel O [] t.


(** The run of [k] on the value of a finished run; a run that is out of
    fuel stays so. *)
Definition continue_with {A B} (w : World) (o : Outcome A) (k : A -> itree ioE B)
  : Outcome B :=
  match result o with
  | Some a => run w (fuel_left o) (gets o) (trace o) (k a)
  | None => mkOutcome None (gets o) (trace o) (fuel_left o)
  end.

(** What the loop [while True] does with the outcome of its body: go
    round again, or leave. *)
Definition next_round (self : AudioAnalyzer) (polling_endpoint : string)
  (lr : unit + (exn + Json.t)) : py Json.t :=
  match lr with
  | inl l => Tau (ITree.iter (poll_once self polling_endpoint) l)
  | inr r => Ret r
  end.

(** What [analyze_audio] does with the outcome of the loop: pass the
    exception on, or process the transcript. *)
Definition after_poll (r : exn + Json.t) : py (list AudioSegment) :=
  match r with
  | inl e => Ret (inl e)
  | inr transcript => lift (process_results transcript)
  end.

(** ** Scenarios *)

(** A response to a poll that neither ends the loop nor fails it. *)
Definition pending (response : Response.t) : Prop :=
  Json.status (Response.json response) <> Some "completed"
  /\ Json.status (Response.json response) <> Some "error".

(** The URL [analyze_audio] polls for the job [transcript_id]. *)
Definition polling_endpoint_of (self : AudioAnalyzer) (transcript_id : string) : string :=
  base_url self ++ "/transcript/" ++ transcript_id.

(** The trace of [k] polls that found the job pending. *)
Fixpoint pending_polls (url : string) (k : nat) : list Event :=
  match k with
  | O => []
  | S k' => EvGet url :: EvSleep 30 :: pending_polls url k'
  end.

(** The request [analyze_audio] submits for [audio_url]. *)
Definition transcript_request (audio_url : string) : TranscriptRequest :=
  {| audio_url := audio_url;
     auto_highlights := true;
     iab_categories := true;
     sentiment_analysis := true |}.

(** The world lets [analyze_audio] get as far as polling: the source is a
    URL, or a file that exists, can be read (its content is [content]) and
    is uploaded with status 200 and an [upload_url]; and the job is created
    with status 200 and an [id]. *)
Definition job_submitted (w : World) (self : AudioAnalyzer)
  (audio_path : string) (is_url : bool) (content : list Byte.byte)
  (audio_url transcript_id : string) : Prop :=
  (if is_url then audio_url = audio_path
   else exists_ w audio_path = true
        /\ file w audio_path = inr content
        /\ let upload_response :=
             post w (base_url self ++ "/upload") (headers self)
                  (DataStream (read_file content)) in
           Response.status_code upload_response = 200
           /\ Json.upload_url (Response.json upload_response) = Some audio_url)
  /\ let response :=
       post w (base_url self ++ "/transcript") (headers self)
            (JsonBody (transcript_request audio_url)) in
     Response.status_code response = 200
     /\ Json.id (Response.json response) = Some transcript_id.

(** The events of [analyze_audio] before the first poll, and their
    number. *)
Definition submission_trace (self : AudioAnalyzer)
  (audio_path : string) (is_url : bool) (content : list Byte.byte)
  (audio_url : string) : list Event :=
  (if is_url then []
   else [EvExists audio_path;
         EvPostBegin (base_url self ++ "/upload");
         EvOpen audio_path;
         EvPost (base_url self ++ "/upload") (DataStream (read_file content))])
  ++ [EvPost (base_url self ++ "/transcript") (JsonBody (transcript_request audio_url))].

Definition submission_steps (is_url : bool) : nat := if is_url then 1%nat else 5%nat.

(** Every chapter has its two mandatory keys. *)
Definition has_times (chapter : Chapter.t) : Prop :=
  is_Some (Chapter.start chapter) /\ is_Some (Chapter.end_ chapter).

(** The segment the specification asks for a chapter: the times and the
    fields that are present copied, the missing fields defaulted. *)
Definition maps_to (chapter : Chapter.t) (segment : AudioSegment) : Prop :=
  Chapter.start chapter = Some (start_ms segment)
  /\ Chapter.end_ chapter = Some (end_ms segment)
  /\ text segment
     = match Chapter.summary chapter with Some summary => summary | None => "" end
  /\ topics segment
     = match Chapter.topics chapter with Some topics => topics | None => [] end
  /\ sentiment segment
     = match Chapter.sentiment chapter with
       | Some sentiment => sentiment
       | None => Some "neutral"
       end
  /\ confidence segment
     = match Chapter.confidence chapter with Some confidence => confidence | None => f1_0 end.

(** The key whose subscript fails first on a chapter without its times. *)
Definition missing_key (chapter : Chapter.t) : string :=
  match Chapter.start chapter with
  | None => "start"
  | Some _ => "end"
  end.

Definition is_post (ev : Event) : bool :=
  match ev with
  | EvPost _ _ => true
  | _ => false
  end.

(** ** A concrete analyzer and concrete worlds *)

Definition demo_self : AudioAnalyzer :=
  {| api_key := "key";
     base_url := "https://api.assemblyai.com/v2";
     headers := {[ "authorization" := "key" ]} |}.

Definition queued : Json.t := Json.mk None None (Some "queued") None None.

(** A world in which the file is there (or not), every POST is answered
    with status 200, an [upload_url] and an [id], the first three polls find
    the job queued and the later ones answer [final]. *)
Definition demo_world (file_exists : bool) (final : Json.t) : World :=
  {| exists_ := fun _ => file_exists;
     file := fun _ =>
       if file_exists then inr [Byte.x52; Byte.x49; Byte.x46; Byte.x46]
       else inl (mk_os_error "FileNotFoundError(2, 'No such file or directory')");
     post := fun _ _ _ =>
       Response.mk 200 "{}" (Json.mk (Some "https://cdn.example/upload/1") (Some "job1")
                                      None None None);
     get := fun n _ _ =>
       Response.mk 200 "{}" (if (n <? 3)%nat then queued else final) |}.

(** A world whose upload is refused with status 401. *)
Definition refusing_world : World :=
  {| exists_ := fun _ => true;
     file := fun _ => inr [Byte.x52; Byte.x49; Byte.x46; Byte.x46];
     post := fun _ _ _ => Response.mk 401 "Unauthorized" Json.empty;
     get := fun _ _ _ => Response.mk 200 "{}" queued |}.

(** A world whose upload is answered with status 200 and the empty string
    as [upload_url]. *)
Definition empty_url_world : World :=
  {| exists_ := fun _ => true;
     file := fun _ => inr [Byte.x52; Byte.x49; Byte.x46; Byte.x46];
     post := fun _ _ _ => Response.mk 200 "{}" (Json.mk (Some "") None None None None);
     get := fun _ _ _ => Response.mk 200 "{}" queued |}.

(** A world whose job stays queued for ever. *)
Definition stuck_world : World :=
  {| exists_ := fun _ => true;
     file := fun _ => inr [Byte.x52; Byte.x49; Byte.x46; Byte.x46];
     post := fun _ _ _ =>
       Response.mk 200 "{}" (Json.mk (Some "https://cdn.example/upload/1") (Some "job1")
                                      None None None);
     get := fun _ _ _ => Response.mk 200 "{}" queued |}.

Definition completed (chapters : option (list Chapter.t)) : Json.t :=
  Json.mk None None (Some "completed") None chapters.

Definition failed (error : option string) : Json.t :=
  Json.mk None None (Some "error") error None.

(** A chapter with its times only, one with every field, and one without
    its [end]. *)
Definition bare_chapter : Chapter.t :=
  Chapter.mk (Some 0) (Some 5000) None None None None.

Definition full_chapter : Chapter.t :=
  Chapter.mk (Some 5000) (Some 9000) (Some "Prices") (Some ["tech"; "sports"])
             (Some (Some "positive")) (Some f0_8).

Definition endless_chapter : Chapter.t :=
  Chapter.mk (Some 9000) None (Some "Weather") None None None.

(** ** More values for the properties beyond the claims *)

(** The smallest positive double, [5e-324]. *)
Definition f_tiny : float := S754_finite false 1 (-1074).

(** A world whose path exists and cannot be opened: it is a directory. *)
Definition directory_world : World :=
  {| exists_ := fun _ => true;
     file := fun _ => inl (mk_os_error "IsADirectoryError(21, 'Is a directory')");
     post := fun _ _ _ =>
       Response.mk 200 "{}" (Json.mk (Some "https://cdn.example/upload/1") (Some "job1")
                                      None None None);
     get := fun _ _ _ => Response.mk 200 "{}" queued |}.

(** A chapter whose [sentiment] is [null]. *)
Definition null_sentiment_chapter : Chapter.t :=
  Chapter.mk (Some 0) (Some 5000) None None (Some None) None.

(** The empty [user_preferences] dict. *)
Definition no_preferences : Preferences :=
  {| pref_topics := None; preferred_tone := None |}.

(** Two lists with the same elements, whatever their order and their
    repetitions. *)
Definition same_elements (l1 l2 : list string) : Prop :=
  forall t, t ∈ l1 <-> t ∈ l2.

(** The world lets [analyze_audio] resolve its source to [audio_url]: the
    first half of [job_submitted]. *)
Definition source_resolved (w : World) (self : AudioAnalyzer)
  (audio_path : string) (is_url : bool) (content : list Byte.byte)
  (audio_url : string) : Prop :=
  if is_url then audio_url = audio_path
  else exists_ w audio_path = true
       /\ file w audio_path = inr content
       /\ let upload_response :=
            post w (base_url self ++ "/upload") (headers self)
                 (DataStream (read_file content)) in
          Response.status_code upload_response = 200
          /\ Json.upload_url (Response.json upload_response) = Some audio_url.

(** The answer of the world to the submission of [audio_url]. *)
Definition submission_response (w : World) (self : AudioAnalyzer) (audio_url : string)
  : Response.t :=
  post w (base_url self ++ "/transcript") (headers self)
       (JsonBody (transcript_request audio_url)).

(** The events after the upload: the submission of the job, the polls and
    the sleeps. *)
Definition is_submission (self : AudioAnalyzer) (ev : Event) : bool :=
  match ev with
  | EvPost url _ => String.eqb url (base_url self ++ "/transcript")
  | _ => false
  end.

Definition is_poll (ev : Event) : bool :=
  match ev with
  | EvGet _ | EvSleep _ => true
  | _ => false
  end.

(** The events of an upload: a POST that is begun, or one of chunks. *)
Definition is_upload (ev : Event) : bool :=
  match ev with
  | EvPostBegin _ | EvPost _ (DataStream _) => true
  | _ => false
  end.

(** The events on the file system. *)
Definition is_file_access (ev : Event) : bool :=
  match ev with
  | EvExists _ | EvOpen _ => true
  | _ => false
  end.

(** The complete sequence of events of a call that polls [k] times in
    vain and once more. *)
Definition protocol_trace (self : AudioAnalyzer)
  (audio_path : string) (is_url : bool) (content : list Byte.byte)
  (audio_url transcript_id : string) (k : nat) : list Event :=
  submission_trace self audio_path is_url content audio_url
  ++ pending_polls (polling_endpoint_of self transcript_id) k
  ++ [EvGet (polling_endpoint_of self transcript_id)].

(** The part of [analyze_audio] after the source is resolved to
    [audio_url] (lines 78-148): the same code as in [analyze_audio], under a
    name. *)
Definition submit_and_poll (self : AudioAnalyzer) (audio_url : string)
  : py (list AudioSegment) :=
  let data := {| audio_url := audio_url;
                 auto_highlights := true;
                 iab_categories := true;
                 sentiment_analysis := true |} in
  response <~
    perform (requests_post (base_url self ++ "/transcript") (headers self) (JsonBody data));
  if negb (Response.status_code response =? 200)
  then raise (RuntimeError ("Failed to create transcription. Status code: "
                            ++ pretty (Response.status_code response)))
  else
    transcript_id <~
      match Json.id (Response.json response) with
      | Some transcript_id => ret transcript_id
      | None => raise (RuntimeError "Failed to get transcription ID from API response")
      end;
    let polling_endpoint := base_url self ++ "/transcript/" ++ transcript_id in
    transcript <~ poll self polling_endpoint;
    lift (process_results transcript).

(** The events of [analyze_audio] before the submission. *)
Definition resolution_trace (self : AudioAnalyzer)
  (audio_path : string) (is_url : bool) (content : list Byte.byte) : list Event :=
  if is_url then []
  else [EvExists audio_path;
        EvPostBegin (base_url self ++ "/upload");
        EvOpen audio_path;
        EvPost (base_url self ++ "/upload") (DataStream (read_file content))].

(** ** Properties of every event of a program *)

(** One layer of "every event of the tree satisfies [P]"; the property
    itself is the greatest fixed point, taken with Paco. *)
Definition everyF {R} (P : forall X, ioE X -> Prop) (r : itree ioE R -> Prop)
  (ot : itree' ioE R) : Prop :=
  match ot with
  | RetF _ => True
  | TauF t => r t
  | VisF e k => P _ e /\ forall x, r (k x)
  end.

Definition every_ {R} (P : forall X, ioE X -> Prop) (r : itree ioE R -> Prop)
  (t : itree ioE R) : Prop :=
  everyF P r (observe t).

Definition every {R} (P : forall X, ioE X -> Prop) (t : itree ioE R) : Prop :=
  paco1 (every_ P) bot1 t.

(** The event is no request, or a request with the headers [hs]. *)
Definition carries (hs : gmap string string) (X : Type) (e : ioE X) : Prop :=
  match e with
  | requests_post_begin _ h | requests_post _ h _ | requests_get _ h => h = hs
  | _ => True
  end.

(** Two worlds with the same file system and the same answers to the
    requests that carry the headers [hs]. *)
Definition same_answers (hs : gmap string string) (w w' : World) : Prop :=
  (forall path, exists_ w path = exists_ w' path)
  /\ (forall path, file w path = file w' path)
  /\ (forall url body, post w url hs body = post w' url hs body)
  /\ (forall n url, get w n url hs = get w' n url hs).

(** A world that answers like [demo_world] to the requests with the
    headers of [demo_self], and with status 500 to all others. *)
Definition strict_world (final : Json.t) : World :=
  {| exists_ := exists_ (demo_world true final);
     file := file (demo_world true final);
     post := fun url hs body =>
       if decide (hs = headers demo_self) then post (demo_world true final) url hs body
       else Response.mk 500 "no key" Json.empty;
     get := fun n url hs =>
       if decide (hs = headers demo_self) then get (demo_world true final) n url hs
       else Response.mk 500 "no key" Json.empty |}.

(* ================================================================== *)
(** * Part II: lemmas and theorems *)
(* ================================================================== *)

(** ** Floats *)

Module PyFloatFacts.

(** The constants are the doubles the decimal literals denote. *)
Example literals :
  Prim2SF 0.0%float = f0_0 /\ Prim2SF 0.5%float = f0_5 /\
  Prim2SF 0.3%float = f0_3 /\ Prim2SF 1.0%float = f1_0 /\
  Prim2SF 0.8%float = f0_8 /\ Prim2SF 0.64%float = f0_64 /\
  Prim2SF 0.6400000000000001%float = f0_64_up.
Proof. vm_compute. repeat split. Qed.

(** [f0_64] is within half a unit in the last place of 64/100, and
    [f0_64_up] is not. *)
Example f0_64_nearest :
  (2 * Z.abs (100 * 5764607523034235 - 64 * 2 ^ 53) <= 100)%Z /\
  (100 < 2 * Z.abs (100 * 5764607523034236 - 64 * 2 ^ 53))%Z.
Proof. vm_compute. split; [discriminate | reflexivity]. Qed.

Example of_int_0 : of_int 0 = f0_0.
Proof. reflexivity. Qed.

Lemma binary_round_aux_sign s m e l :
  has_sign s (binary_round_aux prec emax s m e l).
Proof.
  unfold binary_round_aux.
  destruct (shr_fexp _ _ _ _ _) as [mrs' e'].
  destruct (shr_fexp _ _ _ _ _) as [mrs'' e''].
  destruct (shr_m mrs''); simpl; auto.
  destruct (Z.leb _ _); simpl; auto.
Qed.

Lemma of_int_sign z : (0 <= z)%Z -> has_sign false (of_int z).
Proof.
  intros Hz. unfold of_int, binary_normalize.
  destruct z as [|m|m]; simpl; auto; [|lia].
  unfold binary_round. destruct (shl_align _ _ _) as [mz ez].
  apply binary_round_aux_sign.
Qed.

Lemma mul_sign x y : has_sign false x -> has_sign false y -> has_sign false (mul x y).
Proof.
  unfold mul, SF64mul, SFmul.
  destruct x as [sx|sx| |sx mx ex], y as [sy|sy| |sy my ey]; simpl;
    intros Hx Hy; subst; simpl; auto.
  apply binary_round_aux_sign.
Qed.

Lemma has_sign_not_neg_zero x : has_sign false x -> not_neg_zero x.
Proof. intros H ->. simpl in H. discriminate. Qed.

Lemma add_0_l x : not_neg_zero x -> add f0_0 x = x.
Proof.
  unfold not_neg_zero. destruct x as [[]| | |]; simpl; intros H; try reflexivity.
  congruence.
Qed.

Lemma add_0_r x : not_neg_zero x -> add x f0_0 = x.
Proof.
  unfold not_neg_zero. destruct x as [[]|[]| |]; simpl; intros H; try reflexivity.
  congruence.
Qed.

(** Multiplying by a zero never gives a float greater than zero. *)
Lemma mul_zero_r_not_positive x s : gtb (mul x (S754_zero s)) f0_0 = false.
Proof. destruct x as [sx|sx| |sx mx ex]; reflexivity. Qed.

Lemma mul_zero_l_not_positive s y : gtb (mul (S754_zero s) y) f0_0 = false.
Proof. destruct y as [sy|sy| |sy my ey]; reflexivity. Qed.

(** The positive floats: the positive finite ones and [+inf]. *)
Lemma positive_inv x :
  positive x -> x = S754_infinity false \/ exists m e, x = S754_finite false m e.
Proof.
  unfold positive, gtb, SFltb. destruct x as [s|[]| |[] m e]; simpl; try discriminate; eauto.
Qed.

Lemma compare_cont_Eq_refl m : Pos.compare_cont Eq m m = Eq.
Proof. apply Pos.compare_refl. Qed.

(** On positive floats [<] is asymmetric... *)
Lemma ltb_asym x y : positive x -> positive y -> ltb x y = true -> ltb y x = false.
Proof.
  intros Hx Hy.
  destruct (positive_inv x Hx) as [->|(mx & ex & ->)];
  destruct (positive_inv y Hy) as [->|(my & ey & ->)];
    unfold ltb, SFltb; simpl; try congruence.
  rewrite (Z.compare_antisym ex ey).
  destruct (Z.compare_spec ex ey); simpl; try congruence.
  change (Pos.compare_cont Eq mx my) with (Pos.compare mx my).
  change (Pos.compare_cont Eq my mx) with (Pos.compare my mx).
  rewrite (Pos.compare_antisym mx my).
  destruct (Pos.compare mx my); simpl; congruence.
Qed.

(** ... and "not less than" is transitive. *)
Lemma ltb_negtrans x y z :
  positive x -> positive y -> positive z ->
  ltb x y = false -> ltb y z = false -> ltb x z = false.
Proof.
  intros Hx Hy Hz.
  destruct (positive_inv x Hx) as [->|(mx & ex & ->)];
  destruct (positive_inv y Hy) as [->|(my & ey & ->)];
  destruct (positive_inv z Hz) as [->|(mz & ez & ->)];
    unfold ltb, SFltb; simpl; try congruence.
  change (Pos.compare_cont Eq mx my) with (Pos.compare mx my).
  change (Pos.compare_cont Eq my mz) with (Pos.compare my mz).
  change (Pos.compare_cont Eq mx mz) with (Pos.compare mx mz).
  destruct (Z.compare_spec ex ey), (Z.compare_spec ey ez), (Z.compare_spec ex ez);
    try congruence; try lia; subst;
  destruct (Pos.compare_spec mx my), (Pos.compare_spec my mz), (Pos.compare_spec mx mz);
    try congruence; try lia.
Qed.

(** On positive floats, "not less than" is [>=]. *)
Lemma ltb_false_leb x y : positive x -> positive y -> ltb x y = false -> SFleb y x = true.
Proof.
  intros Hx Hy.
  destruct (positive_inv x Hx) as [->|(mx & ex & ->)];
  destruct (positive_inv y Hy) as [->|(my & ey & ->)];
    unfold ltb, SFltb, SFleb; simpl; try congruence.
  rewrite (Z.compare_antisym ex ey).
  destruct (Z.compare_spec ex ey); simpl; try congruence.
  change (Pos.compare_cont Eq mx my) with (Pos.compare mx my).
  change (Pos.compare_cont Eq my mx) with (Pos.compare my mx).
  rewrite (Pos.compare_antisym mx my).
  destruct (Pos.compare mx my); simpl; congruence.
Qed.

(** Two floats equal to a third are not ordered by [<]. *)
Lemma eqb_eqb_not_ltb x y v : eqb x v = true -> eqb y v = true -> ltb x y = false.
Proof.
  unfold eqb, ltb, SFeqb, SFltb.
  destruct x as [sx|[]| |[] mx ex], y as [sy|[]| |[] my ey], v as [sv|[]| |[] mv ev];
    simpl; try congruence;
  change (Pos.compare_cont Eq mx my) with (Pos.compare mx my);
  change (Pos.compare_cont Eq my mv) with (Pos.compare my mv);
  change (Pos.compare_cont Eq mx mv) with (Pos.compare mx mv);
  destruct (Z.compare_spec ex ev), (Z.compare_spec ey ev), (Z.compare_spec ex ey);
    simpl; try congruence; try lia;
  destruct (Pos.compare_spec mx mv), (Pos.compare_spec my mv), (Pos.compare_spec mx my);
    simpl; try congruence; try lia.
Qed.

End PyFloatFacts.

(** ** [sorted]: a permutation, in order, and stable *)

Module PySortedFacts.
Import PySorted.
Section Facts.
Context {A K : Type} (key : A -> K) (lt : K -> K -> bool).

(** The keys the lemmas are about, on which [lt] is a strict weak order. *)
Context (P : K -> Prop).
Hypothesis lt_asym : forall a b, P a -> P b -> lt a b = true -> lt b a = false.
Hypothesis lt_negtrans :
  forall a b c, P a -> P b -> P c -> lt a b = false -> lt b c = false -> lt a c = false.

Lemma insort_perm x l : insort key lt x l ≡ₚ x :: l.
Proof.
  induction l as [|y l IH]; simpl; [reflexivity|].
  destruct (lt (key x) (key y)); [reflexivity|].
  rewrite IH. apply perm_swap.
Qed.

Lemma fold_insort_perm l acc :
  fold_left (fun acc x => insort key lt x acc) l acc ≡ₚ (acc ++ l)%list.
Proof.
  revert acc. induction l as [|x l IH]; intros acc; simpl.
  - rewrite app_nil_r. reflexivity.
  - rewrite IH, insort_perm. apply Permutation_middle.
Qed.

Lemma sorted_perm reverse l : sorted key lt reverse l ≡ₚ l.
Proof.
  unfold sorted, sort_ascending. destruct reverse.
  - rewrite <- Permutation_rev, fold_insort_perm. simpl. symmetry. apply Permutation_rev.
  - apply fold_insort_perm.
Qed.

(** An element below [y] is below everything that is not below [y]. *)
Lemma lt_below a b c :
  P a -> P b -> P c -> lt a b = true -> lt c b = false -> lt a c = true.
Proof.
  intros Ha Hb Hc Hab Hcb.
  destruct (lt a c) eqn:Hac; [reflexivity|].
  rewrite (lt_negtrans a c b Ha Hc Hb Hac Hcb) in Hab. discriminate.
Qed.

Lemma insort_sorted x l :
  Forall (fun y => P (key y)) (x :: l) ->
  StronglySorted (ascending key lt) l ->
  StronglySorted (ascending key lt) (insort key lt x l).
Proof.
  intros HP Hl. inversion HP as [|? ? Hx HPl]; subst. clear HP.
  induction Hl as [|y l Hl IH Hy]; simpl.
  - repeat constructor.
  - inversion HPl as [|? ? HPy HPl']; subst.
    destruct (lt (key x) (key y)) eqn:Hxy.
    + constructor; [constructor; assumption|].
      constructor.
      * unfold ascending. apply lt_asym; assumption.
      * rewrite Forall_forall in Hy, HPl' |- *. intros z Hz.
        unfold ascending. apply lt_asym; auto.
        apply lt_below with (b := key y); auto. apply Hy, Hz.
    + constructor; [apply IH; assumption|].
      rewrite (insort_perm x l). constructor; assumption.
Qed.

Lemma fold_insort_sorted l acc :
  Forall (fun y => P (key y)) (acc ++ l)%list ->
  StronglySorted (ascending key lt) acc ->
  StronglySorted (ascending key lt) (fold_left (fun acc x => insort key lt x acc) l acc).
Proof.
  revert acc. induction l as [|x l IH]; intros acc HP Hacc; simpl; [assumption|].
  apply IH.
  - rewrite insort_perm. rewrite <- Permutation_middle in HP. exact HP.
  - apply insort_sorted; [|assumption].
    rewrite <- Permutation_middle in HP.
    rewrite Forall_cons in HP |- *. destruct HP as [Hx HP].
    rewrite Forall_app in HP. tauto.
Qed.

Lemma StronglySorted_rev (R : A -> A -> Prop) l :
  StronglySorted R l -> StronglySorted (fun x y => R y x) (rev l).
Proof.
  induction 1 as [|x l Hl IH Hx]; simpl; [constructor|].
  apply StronglySorted_app_2; [|assumption|repeat constructor].
  intros y z Hy Hz. apply list_elem_of_singleton in Hz. subst z.
  rewrite Forall_forall in Hx. apply Hx.
  apply list_elem_of_In. apply in_rev. apply list_elem_of_In. exact Hy.
Qed.

(** With [reverse=True] the result is in descending order of keys. *)
Lemma sorted_reverse_descending l :
  Forall (fun y => P (key y)) l ->
  StronglySorted (descending key lt) (sorted key lt true l).
Proof.
  intros HP. unfold sorted, sort_ascending.
  apply (StronglySorted_rev (ascending key lt)).
  apply fold_insort_sorted; [|constructor].
  simpl. apply Forall_rev. exact HP.
Qed.

(** Stability.  [f] selects elements no two of which are ordered by
    [lt]; the selected elements keep their order. *)
Section Stable.
Context (f : A -> bool).
Hypothesis f_class : forall a b, f a = true -> f b = true -> lt (key a) (key b) = false.

Lemma filter_none (l : list A) :
  (forall z, In z l -> f z = false) -> List.filter f l = [].
Proof.
  induction l as [|y l IH]; intros H; simpl; [reflexivity|].
  rewrite (H y (or_introl eq_refl)). apply IH. intros z Hz. apply H. right. exact Hz.
Qed.

Lemma insort_stable x l :
  Forall (fun y => P (key y)) (x :: l) ->
  StronglySorted (ascending key lt) l ->
  List.filter f (insort key lt x l) = (List.filter f l ++ List.filter f [x])%list.
Proof.
  intros HP Hl. inversion HP as [|? ? Hx HPl]; subst. clear HP.
  induction Hl as [|y l Hl IH Hy]; simpl; [reflexivity|].
  inversion HPl as [|? ? HPy HPl']; subst.
  destruct (lt (key x) (key y)) eqn:Hxy.
  - simpl. destruct (f x) eqn:Hfx; [|rewrite app_nil_r; reflexivity].
    assert (Hnone : List.filter f (y :: l) = []).
    { apply filter_none. intros z Hz.
      destruct (f z) eqn:Hfz; [|reflexivity]. exfalso.
      assert (Hxz : lt (key x) (key z) = true).
      { destruct Hz as [<-|Hz]; [assumption|].
        rewrite Forall_forall in Hy, HPl'.
        apply list_elem_of_In in Hz.
        apply lt_below with (b := key y); auto. apply Hy, Hz. }
      rewrite (f_class x z Hfx Hfz) in Hxz. discriminate. }
    simpl in Hnone. rewrite Hnone. reflexivity.
  - simpl. rewrite (IH HPl'). simpl. destruct (f y); reflexivity.
Qed.

Lemma fold_insort_stable l acc :
  Forall (fun y => P (key y)) (acc ++ l)%list ->
  StronglySorted (ascending key lt) acc ->
  List.filter f (fold_left (fun acc x => insort key lt x acc) l acc)
  = (List.filter f acc ++ List.filter f l)%list.
Proof.
  revert acc. induction l as [|x l IH]; intros acc HP Hacc; simpl.
  - rewrite app_nil_r. reflexivity.
  - assert (HP' : Forall (fun y => P (key y)) (x :: acc) /\ Forall (fun y => P (key y)) l).
    { rewrite <- Permutation_middle in HP.
      rewrite Forall_cons in HP. destruct HP as [Hx HP].
      rewrite Forall_app in HP. rewrite Forall_cons. tauto. }
    destruct HP' as [HPx HPl].
    rewrite IH.
    + rewrite insort_stable by assumption. simpl.
      rewrite <- app_assoc. destruct (f x); reflexivity.
    + rewrite insort_perm. rewrite Forall_app. split; assumption.
    + apply insort_sorted; assumption.
Qed.

Lemma sorted_stable reverse l :
  Forall (fun y => P (key y)) l ->
  List.filter f (sorted key lt reverse l) = List.filter f l.
Proof.
  intros HP. unfold sorted, sort_ascending. destruct reverse.
  - rewrite List.filter_rev, fold_insort_stable.
    + simpl. rewrite List.filter_rev, rev_involutive. reflexivity.
    + simpl. apply Forall_rev. exact HP.
    + constructor.
  - rewrite fold_insort_stable; [reflexivity|exact HP|constructor].
Qed.

End Stable.
End Facts.

(** The model on a list with ties, as CPython sorts it:
    [sorted([(1, 2.0), (2, 1.0), (3, 2.0), (4, 3.0), (5, 1.0)],
    key=lambda x: x[1], reverse=True)]. *)
Example sorted_reverse_example :
  sorted snd ltb true
    [(1, of_int 2); (2, of_int 1); (3, of_int 2); (4, of_int 3); (5, of_int 1)]
  = [(4, of_int 3); (1, of_int 2); (3, of_int 2); (2, of_int 1); (5, of_int 1)].
Proof. vm_compute. reflexivity. Qed.

End PySortedFacts.

(** ** [ContentMatcher] *)

Module MatcherFacts.
Import PyFloatFacts PySorted PySortedFacts.

(** The topic part of a score is never the negative zero. *)
Lemma topic_part_not_neg_zero (n : nat) : not_neg_zero (mul (of_int (Z.of_nat n)) f0_5).
Proof.
  apply has_sign_not_neg_zero, mul_sign; [|reflexivity].
  apply of_int_sign. lia.
Qed.

Lemma tone_matches_decide segment prefs :
  tone_matches segment prefs
  = bool_decide (sentiment segment = preferred_tone prefs).
Proof.
  unfold tone_matches.
  destruct (sentiment segment) as [s|], (preferred_tone prefs) as [tone|].
  - destruct (String.eqb_spec s tone) as [->|Hne].
    + symmetry. apply bool_decide_eq_true. reflexivity.
    + symmetry. apply bool_decide_eq_false. congruence.
  - symmetry. apply bool_decide_eq_false. discriminate.
  - symmetry. apply bool_decide_eq_false. discriminate.
  - symmetry. apply bool_decide_eq_true. reflexivity.
Qed.

(** The score the code accumulates is the score of the specification's
    formula. *)
Lemma score_spec segment prefs :
  score segment prefs
  = spec_final_score segment (default [] (pref_topics prefs)) (preferred_tone prefs).
Proof.
  unfold score, spec_final_score, spec_topic_score, spec_tone_score, common_topics.
  set (n := size _).
  rewrite (add_0_l _ (topic_part_not_neg_zero n)).
  rewrite tone_matches_decide.
  destruct (decide (sentiment segment = preferred_tone prefs)) as [Heq|Hne].
  - rewrite (bool_decide_eq_true_2 _ Heq). reflexivity.
  - rewrite (bool_decide_eq_false_2 _ Hne).
    change (of_int 0) with f0_0.
    rewrite (add_0_r _ (topic_part_not_neg_zero n)). reflexivity.
Qed.

Lemma collect_matches_cons s segs prefs :
  collect_matches (s :: segs) prefs
  = if gtb (score s prefs) f0_0
    then (s, score s prefs) :: collect_matches segs prefs
    else collect_matches segs prefs.
Proof. reflexivity. Qed.

Lemma collect_matches_In segs prefs segment sc :
  In (segment, sc) (collect_matches segs prefs)
  <-> In segment segs /\ sc = score segment prefs /\ gtb sc f0_0 = true.
Proof.
  induction segs as [|s segs IH]; [simpl; tauto|].
  rewrite collect_matches_cons.
  destruct (gtb (score s prefs) f0_0) eqn:Hs; simpl; rewrite IH; clear IH.
  - split.
    + intros [Heq|(Hin & -> & Hpos)]; [|tauto].
      inversion Heq; subst. tauto.
    + intros ([->|Hin] & -> & Hpos); [left; reflexivity|right; tauto].
  - split; [tauto|].
    intros ([->|Hin] & -> & Hpos); [congruence|tauto].
Qed.

Lemma collect_matches_positive segs prefs :
  Forall (fun p => positive (snd p)) (collect_matches segs prefs).
Proof.
  induction segs as [|s segs IH]; [constructor|].
  rewrite collect_matches_cons.
  destruct (gtb (score s prefs) f0_0) eqn:Hs; [constructor|]; assumption.
Qed.

Lemma collect_matches_app a b prefs :
  collect_matches (a ++ b) prefs = (collect_matches a prefs ++ collect_matches b prefs)%list.
Proof.
  induction a as [|s a IH]; [reflexivity|].
  rewrite <- app_comm_cons, !collect_matches_cons.
  destruct (gtb (score s prefs) f0_0); rewrite IH; reflexivity.
Qed.

(** The segments of [matches] are those of the working set with a score
    above zero, in insertion order. *)
Lemma collect_matches_fst segs prefs :
  List.map fst (collect_matches segs prefs)
  = List.filter (fun s => gtb (score s prefs) f0_0) segs.
Proof.
  induction segs as [|s segs IH]; [reflexivity|].
  rewrite collect_matches_cons. simpl List.filter.
  destruct (gtb (score s prefs) f0_0); simpl; rewrite IH; reflexivity.
Qed.

Lemma collect_matches_class segs prefs v :
  List.map fst (List.filter (fun p => eqb (snd p) v) (collect_matches segs prefs))
  = List.filter (fun s => gtb (score s prefs) f0_0 && eqb (score s prefs) v) segs.
Proof.
  induction segs as [|s segs IH]; [reflexivity|].
  rewrite collect_matches_cons. simpl List.filter.
  destruct (gtb (score s prefs) f0_0); simpl; [|exact IH].
  destruct (eqb (score s prefs) v); simpl; rewrite IH; reflexivity.
Qed.

Lemma match_content_perm self prefs :
  match_content self prefs ≡ₚ collect_matches (segments self) prefs.
Proof. apply sorted_perm. Qed.

Lemma StronglySorted_weaken {A} (R R' : A -> A -> Prop) (Q : A -> Prop) l :
  (forall x y, Q x -> Q y -> R x y -> R' x y) ->
  Forall Q l -> StronglySorted R l -> StronglySorted R' l.
Proof.
  intros HR HQ Hl. induction Hl as [|x l Hl IH Hx]; [constructor|].
  inversion HQ as [|? ? Qx Ql]; subst.
  constructor; [apply IH; assumption|].
  rewrite Forall_forall in Hx, Ql |- *. intros y Hy. apply HR; auto.
Qed.

(** C1 (as amended).  [match_content] scores a segment by the formula
    [(|set(topics) & set(T)| * 0.5 + (0.3 if sentiment == P else 0)) *
    confidence], evaluated in binary64 arithmetic; every pair of the result
    carries that score.  For the segment with topics tech and sports,
    sentiment positive and confidence 0.8, against topics [tech] and tone
    positive, the topic score is 0.5, the tone score 0.3, the raw score 0.8,
    and the final score is the double 0.8 * 0.8 = 0.6400000000000001, one
    unit in the last place above the double 0.64. *)
Theorem match_content_score :
  (forall segment prefs,
     score segment prefs
     = spec_final_score segment (default [] (pref_topics prefs)) (preferred_tone prefs))
  /\ (forall self prefs segment sc,
        In (segment, sc) (match_content self prefs) ->
        sc = spec_final_score segment (default [] (pref_topics prefs)) (preferred_tone prefs))
  /\ spec_topic_score example_segment ["tech"] = f0_5
  /\ spec_tone_score example_segment (Some "positive") = f0_3
  /\ add f0_5 f0_3 = f0_8
  /\ score example_segment example_preferences = mul f0_8 f0_8
  /\ mul f0_8 f0_8 = f0_64_up
  /\ match_content (add_segments ContentMatcher_init [example_segment]) example_preferences
     = [(example_segment, f0_64_up)].
Proof.
  split; [exact score_spec|].
  split.
  { intros self prefs segment sc Hin.
    apply (Permutation_in _ (match_content_perm self prefs)) in Hin.
    apply collect_matches_In in Hin. destruct Hin as (_ & -> & _). apply score_spec. }
  vm_compute. repeat split.
Qed.

(** C1, the example as the specification states it: the final score is
    not the double 0.64, and Python's [==] tells them apart
    ([(1 * 0.5 + 0.3) * 0.8 == 0.64] is [False]). *)
Lemma example_score_is_not_0_64 :
  score example_segment example_preferences <> f0_64
  /\ eqb (score example_segment example_preferences) f0_64 = false.
Proof. vm_compute. split; [discriminate|reflexivity]. Qed.

(** C2.  A segment of the working set is in the result of [match_content],
    paired with its score, exactly when its score is greater than 0, and as
    often as it is in the working set.  So a segment with confidence 0 is
    left out whatever its topics and sentiment, and so is a segment that
    shares no topic with the preferences and whose sentiment is not the
    preferred tone. *)
Theorem match_content_includes_iff_positive :
  (forall self prefs segment,
     In segment (segments self) ->
     (In segment (List.map fst (match_content self prefs))
      <-> gtb (score segment prefs) f0_0 = true))
  /\ (forall self prefs segment sc,
        In (segment, sc) (match_content self prefs)
        <-> In segment (segments self) /\ sc = score segment prefs /\ gtb sc f0_0 = true)
  /\ (forall self prefs,
        List.map fst (match_content self prefs)
        ≡ₚ List.filter (fun s => gtb (score s prefs) f0_0) (segments self))
  /\ (forall self prefs segment s sc,
        confidence segment = S754_zero s ->
        gtb (score segment prefs) f0_0 = false
        /\ ~ In (segment, sc) (match_content self prefs))
  /\ (forall self prefs segment sc,
        size (common_topics segment prefs) = O ->
        tone_matches segment prefs = false ->
        gtb (score segment prefs) f0_0 = false
        /\ ~ In (segment, sc) (match_content self prefs)).
Proof.
  assert (Hiff : forall self prefs segment sc,
     In (segment, sc) (match_content self prefs)
     <-> In segment (segments self) /\ sc = score segment prefs /\ gtb sc f0_0 = true).
  { intros self prefs segment sc. rewrite <- collect_matches_In.
    split; apply Permutation_in; [|symmetry]; apply match_content_perm. }
  assert (Hout : forall self prefs segment sc,
     gtb (score segment prefs) f0_0 = false -> ~ In (segment, sc) (match_content self prefs)).
  { intros self prefs segment sc Hs Hin. apply Hiff in Hin.
    destruct Hin as (_ & -> & Hpos). congruence. }
  assert (Hperm : forall self prefs,
     List.map fst (match_content self prefs)
     ≡ₚ List.filter (fun s => gtb (score s prefs) f0_0) (segments self)).
  { intros self prefs. rewrite <- collect_matches_fst.
    apply Permutation_map, match_content_perm. }
  split; [|split; [exact Hiff|split; [exact Hperm|split]]].
  - intros self prefs segment Hin. split.
    + intros Hout'. apply (Permutation_in _ (Hperm self prefs)) in Hout'.
      apply filter_In in Hout'. tauto.
    + intros Hpos. apply (Permutation_in _ (Permutation_sym (Hperm self prefs))).
      apply filter_In. tauto.
  - intros self prefs segment s sc Hc.
    assert (Hs : gtb (score segment prefs) f0_0 = false).
    { unfold score. rewrite Hc. apply mul_zero_r_not_positive. }
    split; [exact Hs|]. apply Hout, Hs.
  - intros self prefs segment sc Hn Ht.
    assert (Hs : gtb (score segment prefs) f0_0 = false).
    { unfold score. rewrite Hn, Ht. apply mul_zero_l_not_positive. }
    split; [exact Hs|]. apply Hout, Hs.
Qed.

(** C3.  The result of [match_content] is in descending order of score:
    every pair scores at least as much as every later pair.  Pairs of equal
    score keep the order of the working set: for every score [v], the
    segments of the result that score [v], in the order of the result, are
    the segments of the working set that score [v], in insertion order. *)
Theorem match_content_sorted_stable :
  forall self prefs,
    StronglySorted (fun p q => geb (snd p) (snd q) = true) (match_content self prefs)
    /\ forall v,
         List.map fst (List.filter (fun p => eqb (snd p) v) (match_content self prefs))
         = List.filter (fun s => gtb (score s prefs) f0_0 && eqb (score s prefs) v)
                       (segments self).
Proof.
  intros self prefs.
  pose proof (collect_matches_positive (segments self) prefs) as Hpos.
  split.
  - apply (StronglySorted_weaken (descending snd ltb) _ (fun p => positive (snd p))).
    + intros p q Hp Hq Hd. unfold geb. apply ltb_false_leb; assumption.
    + rewrite (match_content_perm self prefs). exact Hpos.
    + apply (sorted_reverse_descending snd ltb positive ltb_asym ltb_negtrans). exact Hpos.
  - intros v. rewrite <- collect_matches_class. f_equal.
    apply (sorted_stable snd ltb positive ltb_asym ltb_negtrans).
    + intros a b Ha Hb. apply (eqb_eqb_not_ltb _ _ v); assumption.
    + exact Hpos.
Qed.

(** C9.  Two calls of [add_segments] leave the working set that one call
    with the concatenation leaves: the old segments, then all of the first
    batch, then all of the second, nothing dropped and nothing merged.  A
    [match_content] after them scores every segment of both batches. *)
Theorem add_segments_twice :
  forall self A B,
    add_segments (add_segments self A) B = add_segments self (A ++ B)
    /\ segments (add_segments (add_segments self A) B) = (segments self ++ A ++ B)%list
    /\ length (segments (add_segments (add_segments ContentMatcher_init A) B))
       = (length A + length B)%nat
    /\ forall prefs,
         match_content (add_segments (add_segments self A) B) prefs
         = match_content (add_segments self (A ++ B)) prefs
         /\ match_content (add_segments (add_segments self A) B) prefs
            ≡ₚ (collect_matches (segments self) prefs ++ collect_matches A prefs
                ++ collect_matches B prefs)%list
         /\ forall segment,
              In segment (A ++ B) ->
              gtb (score segment prefs) f0_0 = true ->
              In (segment, score segment prefs)
                 (match_content (add_segments (add_segments self A) B) prefs).
Proof.
  intros self A B.
  assert (Heq : add_segments (add_segments self A) B = add_segments self (A ++ B)).
  { unfold add_segments. simpl. rewrite app_assoc. reflexivity. }
  split; [exact Heq|]. split; [simpl; symmetry; apply app_assoc|].
  split; [simpl; apply length_app|].
  intros prefs. split; [rewrite Heq; reflexivity|]. split.
  - rewrite match_content_perm. simpl.
    rewrite !collect_matches_app, app_assoc. reflexivity.
  - intros segment Hin Hpos.
    apply (Permutation_in _ (Permutation_sym (match_content_perm _ prefs))).
    apply collect_matches_In. rewrite Heq. simpl.
    split; [|split; [reflexivity|exact Hpos]].
    apply in_or_app. right. exact Hin.
Qed.

End MatcherFacts.

(** ** Runs *)

Module RunFacts.

Lemma run_unfold {R} w fuel gets tr (t : itree ioE R) :
  run w fuel gets tr t
  = match observe t with
    | RetF r => mkOutcome (Some r) gets tr fuel
    | TauF t' =>
        match fuel with
        | O => mkOutcome None gets tr O
        | S fuel' => run w fuel' gets tr t'
        end
    | VisF e k =>
        match fuel with
        | O => mkOutcome None gets tr O
        | S fuel' =>
            let '(x, gets', ev) := answer w gets e in
            run w fuel' gets' (tr ++ [ev]) (k x)
        end
    end.
Proof. destruct fuel; reflexivity. Qed.

(** A run sees a tree through [observe] only. *)
Lemma run_observe {R} w fuel gets tr (t t' : itree ioE R) :
  observe t = observe t' -> run w fuel gets tr t = run w fuel gets tr t'.
Proof. intros H. rewrite !run_unfold, H. reflexivity. Qed.

Lemma run_bind {A B} w fuel gets tr (t : itree ioE A) (k : A -> itree ioE B) :
  run w fuel gets tr (ITree.bind t k) = continue_with w (run w fuel gets tr t) k.
Proof.
  revert gets tr t. induction fuel as [|fuel IH]; intros gets tr t.
  - rewrite (run_observe w _ _ _ (ITree.bind t k)
               (match observe t with
                | RetF r => k r
                | TauF t' => Tau (ITree.bind t' k)
                | VisF e h => Vis e (fun x => ITree.bind (h x) k)
                end)) by reflexivity.
    rewrite (run_unfold w _ _ _ t).
    destruct (observe t); reflexivity.
  - rewrite (run_observe w _ _ _ (ITree.bind t k)
               (match observe t with
                | RetF r => k r
                | TauF t' => Tau (ITree.bind t' k)
                | VisF e h => Vis e (fun x => ITree.bind (h x) k)
                end)) by reflexivity.
    rewrite (run_unfold w _ _ _ t).
    destruct (observe t) as [r|t'|X e h]; [reflexivity| |].
    + simpl. apply IH.
    + simpl. destruct (answer w gets e) as [[x gets'] ev]. apply IH.
Qed.

#[local] Arguments run : simpl never.

Lemma continue_with_value {A B} w (a : A) gets tr fuel (k : A -> itree ioE B) :
  continue_with w (mkOutcome (Some a) gets tr fuel) k = run w fuel gets tr (k a).
Proof. reflexivity. Qed.

Lemma continue_with_out_of_fuel {A B} w gets tr fuel (k : A -> itree ioE B) :
  continue_with w (mkOutcome None gets tr fuel) k = mkOutcome None gets tr fuel.
Proof. reflexivity. Qed.

Lemma run_iter {I R} w fuel gets tr (body : I -> itree ioE (I + R)) (i : I) :
  run w fuel gets tr (ITree.iter body i)
  = run w fuel gets tr
      (ITree.bind (body i)
         (fun lr => match lr with
                    | inl l => Tau (ITree.iter body l)
                    | inr r => Ret r
                    end)).
Proof. apply run_observe. reflexivity. Qed.

Lemma run_Ret {R} w fuel gets tr (r : R) :
  run w fuel gets tr (Ret r) = mkOutcome (Some r) gets tr fuel.
Proof. destruct fuel; reflexivity. Qed.

Lemma run_Tau {R} w fuel gets tr (t : itree ioE R) :
  run w (S fuel) gets tr (Tau t) = run w fuel gets tr t.
Proof. reflexivity. Qed.

Lemma run_trigger {X} w fuel gets tr (e : ioE X) :
  run w (S fuel) gets tr (ITree.trigger e)
  = let '(x, gets', ev) := answer w gets e in mkOutcome (Some x) gets' (tr ++ [ev]) fuel.
Proof.
  rewrite run_unfold. simpl.
  destruct (answer w gets e) as [[x gets'] ev]. apply run_Ret.
Qed.

Lemma run_trigger_0 {X} w gets tr (e : ioE X) :
  run w O gets tr (ITree.trigger e) = mkOutcome None gets tr O.
Proof. reflexivity. Qed.

Lemma run_bind_trigger {X B} w fuel gets tr (e : ioE X) (k : X -> itree ioE B) :
  run w (S fuel) gets tr (ITree.bind (ITree.trigger e) k)
  = let '(x, gets', ev) := answer w gets e in run w fuel gets' (tr ++ [ev]) (k x).
Proof.
  rewrite run_bind, run_trigger.
  destruct (answer w gets e) as [[x gets'] ev]. reflexivity.
Qed.

Lemma run_bind_trigger_0 {X B} w gets tr (e : ioE X) (k : X -> itree ioE B) :
  run w O gets tr (ITree.bind (ITree.trigger e) k) = mkOutcome None gets tr O.
Proof. rewrite run_bind, run_trigger_0. reflexivity. Qed.

(** *** Python computations *)

Lemma run_ret {R} w fuel gets tr (r : R) :
  run w fuel gets tr (ret r) = mkOutcome (Some (inr r)) gets tr fuel.
Proof. apply run_Ret. Qed.

Lemma run_raise {R} w fuel gets tr (e : exn) :
  run w fuel gets tr (raise e : py R) = mkOutcome (Some (inl e)) gets tr fuel.
Proof. destruct fuel; reflexivity. Qed.

Lemma run_lift {R} w fuel gets tr (r : exn + R) :
  run w fuel gets tr (lift r) = mkOutcome (Some r) gets tr fuel.
Proof. destruct fuel; reflexivity. Qed.

Lemma run_perform {X} w fuel gets tr (e : ioE X) :
  run w (S fuel) gets tr (perform e)
  = let '(x, gets', ev) := answer w gets e in
    mkOutcome (Some (inr x)) gets' (tr ++ [ev]) fuel.
Proof.
  unfold perform. rewrite run_bind, run_trigger.
  destruct (answer w gets e) as [[x gets'] ev]. unfold continue_with. simpl.
  apply run_Ret.
Qed.

(** [bind] goes on with the value of a run that returned... *)
Lemma run_bind_value {A B} w fuel gets tr (m : py A) (k : A -> py B) a gets' tr' fuel' :
  run w fuel gets tr m = mkOutcome (Some (inr a)) gets' tr' fuel' ->
  run w fuel gets tr (bind m k) = run w fuel' gets' tr' (k a).
Proof. intros H. unfold bind. rewrite run_bind, H. reflexivity. Qed.

(** ... passes on the exception of a run that raised... *)
Lemma run_bind_raise {A B} w fuel gets tr (m : py A) (k : A -> py B) e gets' tr' fuel' :
  run w fuel gets tr m = mkOutcome (Some (inl e)) gets' tr' fuel' ->
  run w fuel gets tr (bind m k) = mkOutcome (Some (inl e)) gets' tr' fuel'.
Proof.
  intros H. unfold bind. rewrite run_bind, H. unfold continue_with. simpl.
  apply run_Ret.
Qed.

(** ... and is out of fuel when its first part is. *)
Lemma run_bind_out_of_fuel {A B} w fuel gets tr (m : py A) (k : A -> py B) :
  result (run w fuel gets tr m) = None ->
  result (run w fuel gets tr (bind m k)) = None.
Proof. intros H. unfold bind. rewrite run_bind. unfold continue_with. rewrite H. reflexivity. Qed.

Lemma run_try_except_value {A} w fuel gets tr (m : py A) h a gets' tr' fuel' :
  run w fuel gets tr m = mkOutcome (Some (inr a)) gets' tr' fuel' ->
  run w fuel gets tr (try_except m h) = mkOutcome (Some (inr a)) gets' tr' fuel'.
Proof.
  intros H. unfold try_except. rewrite run_bind, H. unfold continue_with. simpl.
  apply run_Ret.
Qed.

Lemma run_try_except_raise {A} w fuel gets tr (m : py A) h e gets' tr' fuel' :
  run w fuel gets tr m = mkOutcome (Some (inl e)) gets' tr' fuel' ->
  run w fuel gets tr (try_except m h) = run w fuel' gets' tr' (h e).
Proof. intros H. unfold try_except. rewrite run_bind, H. reflexivity. Qed.

End RunFacts.

(** ** [AudioAnalyzer] *)

Module AnalyzerFacts.
Import RunFacts.
#[local] Arguments run : simpl never.
#[local] Arguments continue_with : simpl never.

Section Poll.
Context (w : World) (self : AudioAnalyzer) (url : string).

Lemma run_poll_unfold fuel gets tr :
  run w fuel gets tr (poll self url)
  = continue_with w (run w fuel gets tr (poll_once self url tt)) (next_round self url).
Proof. unfold poll at 1. rewrite run_iter, run_bind. reflexivity. Qed.

(** The body of the loop, by the status it reads. *)
Lemma run_poll_once_0 gets tr :
  run w O gets tr (poll_once self url tt) = mkOutcome None gets tr O.
Proof. apply run_bind_trigger_0. Qed.

Lemma run_poll_once_completed fuel gets tr :
  Json.status (Response.json (get w gets url (headers self))) = Some "completed" ->
  run w (S fuel) gets tr (poll_once self url tt)
  = mkOutcome (Some (inr (inr (Response.json (get w gets url (headers self))))))
              (S gets) (tr ++ [EvGet url]) fuel.
Proof.
  intros Hc. unfold poll_once. rewrite run_bind_trigger. simpl.
  destruct (decide _) as [_|Hne]; [|contradiction].
  apply run_Ret.
Qed.

Lemma run_poll_once_error fuel gets tr :
  Json.status (Response.json (get w gets url (headers self))) = Some "error" ->
  run w (S fuel) gets tr (poll_once self url tt)
  = mkOutcome
      (Some (inr (inl (RuntimeError
                         ("Transcription failed: "
                          ++ default "Unknown error"
                               (Json.error (Response.json (get w gets url (headers self)))))))))
      (S gets) (tr ++ [EvGet url]) fuel.
Proof.
  intros He. unfold poll_once. rewrite run_bind_trigger. simpl.
  destruct (decide _) as [Heq|_]; [congruence|].
  destruct (decide _) as [_|Hne]; [|contradiction].
  apply run_Ret.
Qed.

Lemma run_poll_once_pending fuel gets tr :
  pending (get w gets url (headers self)) ->
  run w (S (S fuel)) gets tr (poll_once self url tt)
  = mkOutcome (Some (inl tt)) (S gets) (tr ++ [EvGet url; EvSleep 30]) fuel.
Proof.
  intros [Hc He]. unfold poll_once. rewrite run_bind_trigger. simpl.
  destruct (decide _) as [Heq|_]; [contradiction|].
  destruct (decide _) as [Heq|_]; [contradiction|].
  rewrite run_bind_trigger. simpl. rewrite <- app_assoc. apply run_Ret.
Qed.

Lemma run_poll_once_pending_1 gets tr :
  pending (get w gets url (headers self)) ->
  run w 1 gets tr (poll_once self url tt) = mkOutcome None (S gets) (tr ++ [EvGet url]) O.
Proof.
  intros [Hc He]. unfold poll_once. rewrite run_bind_trigger. simpl.
  destruct (decide _) as [Heq|_]; [contradiction|].
  destruct (decide _) as [Heq|_]; [contradiction|].
  apply run_bind_trigger_0.
Qed.

(** One round of the loop on a pending job: a GET, a sleep of 30 seconds,
    and the loop again. *)
Lemma run_poll_pending fuel gets tr :
  pending (get w gets url (headers self)) ->
  run w (S (S (S fuel))) gets tr (poll self url)
  = run w fuel (S gets) (tr ++ [EvGet url; EvSleep 30]) (poll self url).
Proof.
  intros H. rewrite run_poll_unfold, run_poll_once_pending by exact H.
  rewrite continue_with_value. apply run_Tau.
Qed.

Lemma run_poll_pendings k fuel gets tr :
  (forall i, (i < k)%nat -> pending (get w (gets + i) url (headers self))) ->
  run w (3 * k + fuel) gets tr (poll self url)
  = run w fuel (gets + k) (tr ++ pending_polls url k) (poll self url).
Proof.
  revert gets tr. induction k as [|k IH]; intros gets tr H.
  - simpl. rewrite Nat.add_0_r, app_nil_r. reflexivity.
  - replace (3 * S k + fuel)%nat with (S (S (S (3 * k + fuel)))) by lia.
    rewrite run_poll_pending.
    + rewrite IH.
      * replace (S gets + k)%nat with (gets + S k)%nat by lia.
        simpl pending_polls. rewrite <- app_assoc. reflexivity.
      * intros i Hi. replace (S gets + i)%nat with (gets + S i)%nat by lia.
        apply H. lia.
    + replace gets with (gets + 0)%nat at 1 by lia. apply H. lia.
Qed.

(** The poll that finds the job completed leaves the loop with the
    transcript. *)
Lemma run_poll_completed fuel gets tr :
  Json.status (Response.json (get w gets url (headers self))) = Some "completed" ->
  run w (S fuel) gets tr (poll self url)
  = mkOutcome (Some (inr (Response.json (get w gets url (headers self)))))
              (S gets) (tr ++ [EvGet url]) fuel.
Proof.
  intros H. rewrite run_poll_unfold, run_poll_once_completed by exact H.
  rewrite continue_with_value. apply run_Ret.
Qed.

(** The poll that finds the job failed raises. *)
Lemma run_poll_error fuel gets tr :
  Json.status (Response.json (get w gets url (headers self))) = Some "error" ->
  run w (S fuel) gets tr (poll self url)
  = mkOutcome
      (Some (inl (RuntimeError
                    ("Transcription failed: "
                     ++ default "Unknown error"
                          (Json.error (Response.json (get w gets url (headers self))))))))
      (S gets) (tr ++ [EvGet url]) fuel.
Proof.
  intros H. rewrite run_poll_unfold, run_poll_once_error by exact H.
  rewrite continue_with_value. apply run_Ret.
Qed.

Lemma run_poll_0 gets tr :
  run w O gets tr (poll self url) = mkOutcome None gets tr O.
Proof. rewrite run_poll_unfold, run_poll_once_0. reflexivity. Qed.

(** While every poll finds the job pending, the loop has not returned,
    whatever the fuel. *)
Lemma run_poll_forever :
  (forall i, pending (get w i url (headers self))) ->
  forall fuel gets tr, result (run w fuel gets tr (poll self url)) = None.
Proof.
  intros Hpending fuel.
  induction fuel as [fuel IH] using lt_wf_ind. intros gets tr.
  destruct fuel as [|[|[|fuel]]].
  - rewrite run_poll_0. reflexivity.
  - rewrite run_poll_unfold, run_poll_once_pending_1 by apply Hpending. reflexivity.
  - rewrite run_poll_unfold, run_poll_once_pending by apply Hpending.
    rewrite continue_with_value. reflexivity.
  - rewrite run_poll_pending by apply Hpending. apply IH. lia.
Qed.

(** The loop as an equation between trees, up to silent steps: one round
    is the GET and, by the status read, the transcript, the exception, or
    the sleep of 30 seconds followed by the loop itself.  The loop has no
    state: no counter and no clock go round with it. *)
Lemma poll_unfold :
  eutt eq (poll self url)
    (ITree.bind (poll_once self url tt)
       (fun lr => match lr with
                  | inl _ => poll self url
                  | inr r => Ret r
                  end)).
Proof.
  unfold poll at 1. rewrite unfold_iter.
  eapply eutt_clo_bind; [reflexivity|].
  intros lr ? <-. destruct lr as [[]|r]; [apply tau_eutt|reflexivity].
Qed.

Lemma poll_round :
  eutt eq (poll self url)
    (ITree.bind (ITree.trigger (requests_get url (headers self)))
       (fun response =>
          let transcript := Response.json response in
          if decide (Json.status transcript = Some "completed")
          then Ret (inr transcript)
          else if decide (Json.status transcript = Some "error")
          then Ret (inl (RuntimeError
                           ("Transcription failed: "
                            ++ default "Unknown error" (Json.error transcript))))
          else ITree.bind (ITree.trigger (time_sleep 30)) (fun _ => poll self url))).
Proof.
  rewrite poll_unfold at 1. unfold poll_once. rewrite bind_bind.
  eapply eutt_clo_bind; [reflexivity|].
  intros response ? <-. cbv zeta.
  destruct (decide _); [rewrite bind_ret_l; reflexivity|].
  destruct (decide _); [rewrite bind_ret_l; reflexivity|].
  rewrite bind_bind. eapply eutt_clo_bind; [reflexivity|].
  intros [] ? <-. rewrite bind_ret_l. reflexivity.
Qed.

End Poll.

Section Analyze.
Context (w : World) (self : AudioAnalyzer).

(** [requests.post] with the generator [read_file(file_path)] as data: the
    request is begun, the file is opened, and either the request is aborted
    or the chunks are sent and the world answers. *)
Lemma run_requests_post_data_aborted url hs file_path e fuel gets tr :
  file w file_path = inl e ->
  run w (S (S fuel)) gets tr (requests_post_data url hs (read_file_generator file_path))
  = mkOutcome
      (Some (inl (ConnectionError ("('Connection aborted.', " ++ os_repr e ++ ")"))))
      gets (tr ++ [EvPostBegin url; EvOpen file_path]) fuel.
Proof.
  intros Hfile. unfold requests_post_data, read_file_generator.
  rewrite run_bind_trigger. simpl.
  rewrite run_bind, run_bind_trigger. simpl. rewrite Hfile.
  rewrite run_Ret, continue_with_value, run_raise, <- app_assoc. reflexivity.
Qed.

Lemma run_requests_post_data_sent url hs file_path content fuel gets tr :
  file w file_path = inr content ->
  run w (S (S (S fuel))) gets tr (requests_post_data url hs (read_file_generator file_path))
  = mkOutcome (Some (inr (post w url hs (DataStream (read_file content))))) gets
      (tr ++ [EvPostBegin url; EvOpen file_path;
              EvPost url (DataStream (read_file content))])
      fuel.
Proof.
  intros Hfile. unfold requests_post_data, read_file_generator.
  rewrite run_bind_trigger. simpl.
  rewrite run_bind, run_bind_trigger. simpl. rewrite Hfile.
  rewrite run_Ret, continue_with_value, run_perform. simpl.
  rewrite <- !app_assoc. reflexivity.
Qed.

(** [_upload_file], by what the world answers. *)
Lemma run_upload_file_unreadable file_path e fuel gets tr :
  file w file_path = inl e ->
  run w (S (S fuel)) gets tr (_upload_file self file_path)
  = mkOutcome
      (Some (inl (ConnectionError ("('Connection aborted.', " ++ os_repr e ++ ")"))))
      gets (tr ++ [EvPostBegin (base_url self ++ "/upload"); EvOpen file_path]) fuel.
Proof.
  intros Hfile. unfold _upload_file.
  erewrite run_bind_raise; [reflexivity|].
  apply run_requests_post_data_aborted. exact Hfile.
Qed.

Lemma run_upload_file_posted file_path content fuel gets tr :
  file w file_path = inr content ->
  let request := DataStream (read_file content) in
  let upload_response := post w (base_url self ++ "/upload") (headers self) request in
  run w (S (S (S fuel))) gets tr (_upload_file self file_path)
  = run w fuel gets
      (tr ++ [EvPostBegin (base_url self ++ "/upload"); EvOpen file_path;
              EvPost (base_url self ++ "/upload") request])
      (if negb (Response.status_code upload_response =? 200)
       then raise (RuntimeError ("Upload failed: " ++ Response.text upload_response))
       else match Json.upload_url (Response.json upload_response) with
            | Some url => ret url
            | None => raise (KeyError "upload_url")
            end).
Proof.
  intros Hfile request upload_response. unfold _upload_file.
  erewrite run_bind_value; [reflexivity|].
  apply run_requests_post_data_sent. exact Hfile.
Qed.

(** Up to the first poll. *)
Lemma run_analyze_audio_submitted audio_path is_url content audio_url transcript_id :
  job_submitted w self audio_path is_url content audio_url transcript_id ->
  forall fuel,
    execute w (submission_steps is_url + fuel) (analyze_audio self audio_path is_url)
    = continue_with w
        (run w fuel O (submission_trace self audio_path is_url content audio_url)
             (poll self (polling_endpoint_of self transcript_id)))
        after_poll.
Proof.
  unfold job_submitted, transcript_request, submission_trace.
  intros [Hsource [Hstatus Hid]] fuel.
  unfold execute, analyze_audio.
  destruct is_url; simpl negb; cbv iota.
  - subst audio_url. change (submission_steps true + fuel)%nat with (S fuel).
    erewrite run_bind_value by apply run_ret. cbv beta iota.
    erewrite run_bind_value;
      [|apply run_try_except_value; apply run_ret]. cbv beta.
    erewrite run_bind_value; [|rewrite run_perform; simpl; reflexivity].
    cbv beta. rewrite Hstatus. simpl negb. cbv iota.
    rewrite Hid.
    erewrite run_bind_value by apply run_ret. cbv beta.
    unfold bind. rewrite run_bind. reflexivity.
  - destruct Hsource as (Hexists & Hfile & Hup & Hurl).
    change (submission_steps false + fuel)%nat with (S (S (S (S (S fuel))))).
    erewrite run_bind_value;
      [|erewrite run_bind_value;
          [apply run_ret|rewrite run_perform; simpl; reflexivity]].
    rewrite Hexists. simpl negb. cbv beta iota.
    erewrite run_bind_value.
    2:{ apply run_try_except_value.
        rewrite (run_upload_file_posted _ _ _ _ _ Hfile). cbv zeta.
        rewrite Hup, Hurl. simpl negb. cbv iota. apply run_ret. }
    cbv beta.
    erewrite run_bind_value; [|rewrite run_perform; simpl; reflexivity].
    cbv beta. rewrite Hstatus. simpl negb. cbv iota.
    rewrite Hid.
    erewrite run_bind_value by apply run_ret. cbv beta.
    unfold bind. rewrite run_bind. reflexivity.
Qed.

(** More fuel does not change a run that has returned. *)
Lemma run_more_fuel {R} (t : itree ioE R) fuel d gets tr r gets' tr' left :
  run w fuel gets tr t = mkOutcome (Some r) gets' tr' left ->
  run w (fuel + d) gets tr t = mkOutcome (Some r) gets' tr' (left + d).
Proof.
  revert gets tr t. induction fuel as [|fuel IH]; intros gets tr t;
    rewrite !run_unfold; destruct (observe t) as [r0|t'|X e k]; simpl;
    try discriminate; try (intros [= -> -> -> <-]; reflexivity).
  - apply IH.
  - destruct (answer w gets e) as [[x g] ev]. apply IH.
Qed.

Lemma run_never_returns {R} (t : itree ioE R) steps :
  (forall fuel, result (execute w (steps + fuel) t) = None) ->
  forall fuel, result (execute w fuel t) = None.
Proof.
  intros H fuel. destruct (execute w fuel t) as [[r|] g tr left] eqn:Hrun; [|reflexivity].
  exfalso. unfold execute in *.
  apply (run_more_fuel t fuel steps) in Hrun.
  specialize (H fuel). rewrite (Nat.add_comm steps fuel), Hrun in H. discriminate.
Qed.

Section Submitted.
Context (audio_path : string) (is_url : bool) (content : list Byte.byte)
        (audio_url transcript_id : string).
Hypothesis Hsubmitted :
  job_submitted w self audio_path is_url content audio_url transcript_id.

#[local] Abbreviation url := (polling_endpoint_of self transcript_id).
#[local] Abbreviation before := (submission_trace self audio_path is_url content audio_url).
#[local] Abbreviation steps := (submission_steps is_url).

Lemma run_analyze_audio_completed k :
  (forall i, (i < k)%nat -> pending (get w i url (headers self))) ->
  Json.status (Response.json (get w k url (headers self))) = Some "completed" ->
  forall fuel,
    execute w (steps + (3 * k + S fuel)) (analyze_audio self audio_path is_url)
    = mkOutcome (Some (process_results (Response.json (get w k url (headers self)))))
                (S k) (before ++ pending_polls url k ++ [EvGet url]) fuel.
Proof.
  intros Hpending Hc fuel.
  rewrite (run_analyze_audio_submitted _ _ _ _ _ Hsubmitted).
  rewrite run_poll_pendings by exact Hpending.
  rewrite run_poll_completed by exact Hc.
  rewrite continue_with_value. unfold after_poll. rewrite run_lift.
  rewrite <- app_assoc. reflexivity.
Qed.

Lemma run_analyze_audio_error k :
  (forall i, (i < k)%nat -> pending (get w i url (headers self))) ->
  Json.status (Response.json (get w k url (headers self))) = Some "error" ->
  forall fuel,
    execute w (steps + (3 * k + S fuel)) (analyze_audio self audio_path is_url)
    = mkOutcome
        (Some (inl (RuntimeError
                      ("Transcription failed: "
                       ++ default "Unknown error"
                            (Json.error (Response.json (get w k url (headers self))))))))
        (S k) (before ++ pending_polls url k ++ [EvGet url]) fuel.
Proof.
  intros Hpending He fuel.
  rewrite (run_analyze_audio_submitted _ _ _ _ _ Hsubmitted).
  rewrite run_poll_pendings by exact Hpending.
  rewrite run_poll_error by exact He.
  rewrite continue_with_value. unfold after_poll. rewrite run_Ret.
  rewrite <- app_assoc. reflexivity.
Qed.

(** After [k] pending polls the program is back at the top of the loop,
    having slept [k] times. *)
Lemma run_analyze_audio_pending k :
  (forall i, (i < k)%nat -> pending (get w i url (headers self))) ->
  execute w (steps + (3 * k + 0)) (analyze_audio self audio_path is_url)
  = mkOutcome None k (before ++ pending_polls url k) O.
Proof.
  intros Hpending.
  rewrite (run_analyze_audio_submitted _ _ _ _ _ Hsubmitted).
  rewrite run_poll_pendings by exact Hpending.
  rewrite run_poll_0. reflexivity.
Qed.

(** The next step is the next GET, whatever it will answer. *)
Lemma run_analyze_audio_retry k :
  (forall i, (i < k)%nat -> pending (get w i url (headers self))) ->
  trace (execute w (steps + (3 * k + 1)) (analyze_audio self audio_path is_url))
  = (before ++ pending_polls url k ++ [EvGet url])%list.
Proof.
  intros Hpending.
  rewrite (run_analyze_audio_submitted _ _ _ _ _ Hsubmitted).
  rewrite run_poll_pendings by exact Hpending.
  rewrite app_assoc.
  destruct (decide (Json.status (Response.json (get w (0 + k) url (headers self)))
                    = Some "completed")) as [Hc|Hc].
  { rewrite run_poll_completed by exact Hc. rewrite continue_with_value.
    unfold after_poll. rewrite run_lift. reflexivity. }
  destruct (decide (Json.status (Response.json (get w (0 + k) url (headers self)))
                    = Some "error")) as [He|He].
  { rewrite run_poll_error by exact He. rewrite continue_with_value.
    unfold after_poll. rewrite run_Ret. reflexivity. }
  rewrite run_poll_unfold, run_poll_once_pending_1 by (split; assumption).
  reflexivity.
Qed.

Lemma run_analyze_audio_forever :
  (forall i, pending (get w i url (headers self))) ->
  forall fuel, result (execute w fuel (analyze_audio self audio_path is_url)) = None.
Proof.
  intros Hpending. apply (run_never_returns _ steps). intros fuel.
  rewrite (run_analyze_audio_submitted _ _ _ _ _ Hsubmitted).
  pose proof (run_poll_forever w self url Hpending fuel O before) as Hnone.
  destruct (run w fuel O before (poll self url)) as [[r|] g tr left]; [discriminate|].
  reflexivity.
Qed.

End Submitted.
End Analyze.

(** *** Chapters to segments *)

Lemma segment_of_chapter_maps_to chapter :
  has_times chapter ->
  exists segment, segment_of_chapter chapter = inr segment /\ maps_to chapter segment.
Proof.
  intros [[start Hs] [end_ He]]. unfold segment_of_chapter. rewrite Hs, He.
  eexists. split; [reflexivity|].
  unfold maps_to. simpl.
  destruct (Chapter.summary chapter), (Chapter.topics chapter),
    (Chapter.sentiment chapter), (Chapter.confidence chapter); simpl;
    repeat split; solve [reflexivity | assumption].
Qed.

Lemma segment_of_chapter_missing chapter :
  ~ has_times chapter -> segment_of_chapter chapter = inl (KeyError (missing_key chapter)).
Proof.
  unfold has_times, segment_of_chapter, missing_key. intros H.
  destruct (Chapter.start chapter) as [start|]; [|reflexivity].
  destruct (Chapter.end_ chapter) as [end_|]; [|reflexivity].
  exfalso. apply H. split; eexists; reflexivity.
Qed.

Lemma segments_of_chapters_maps_to chapters acc :
  Forall has_times chapters ->
  exists segs,
    segments_of_chapters chapters acc = inr (acc ++ segs)%list
    /\ Forall2 maps_to chapters segs.
Proof.
  intros H. revert acc. induction H as [|chapter chapters Hc _ IH]; intros acc.
  - exists []. simpl. rewrite app_nil_r. split; [reflexivity|constructor].
  - destruct (segment_of_chapter_maps_to chapter Hc) as (segment & Hseg & Hmaps).
    destruct (IH (acc ++ [segment])%list) as (segs & Hsegs & Hall).
    exists (segment :: segs). simpl. rewrite Hseg, Hsegs, <- app_assoc.
    split; [reflexivity|constructor; assumption].
Qed.

Lemma segments_of_chapters_missing good chapter rest acc :
  Forall has_times good -> ~ has_times chapter ->
  segments_of_chapters (good ++ chapter :: rest) acc = inl (KeyError (missing_key chapter)).
Proof.
  intros H Hbad. revert acc. induction H as [|c good Hc _ IH]; intros acc; simpl.
  - rewrite (segment_of_chapter_missing chapter Hbad). reflexivity.
  - destruct (segment_of_chapter_maps_to c Hc) as (segment & -> & _). apply IH.
Qed.

Lemma process_results_maps_to transcript chapters :
  Json.chapters transcript = Some chapters ->
  Forall has_times chapters ->
  exists segs, process_results transcript = inr segs /\ Forall2 maps_to chapters segs.
Proof.
  intros Hch Hall. unfold process_results. rewrite Hch. simpl.
  destruct chapters as [|chapter chapters].
  - exists []. split; [reflexivity|constructor].
  - destruct (segments_of_chapters_maps_to (chapter :: chapters) [] Hall)
      as (segs & Hsegs & HF).
    exists segs. split; [exact Hsegs|exact HF].
Qed.

Lemma process_results_missing transcript good chapter rest :
  Json.chapters transcript = Some (good ++ chapter :: rest)%list ->
  Forall has_times good -> ~ has_times chapter ->
  process_results transcript = inl (KeyError (missing_key chapter)).
Proof.
  intros Hch Hgood Hbad. unfold process_results. rewrite Hch. simpl.
  destruct (good ++ chapter :: rest)%list as [|c l] eqn:Heq.
  - destruct good; discriminate.
  - rewrite <- Heq. apply segments_of_chapters_missing; assumption.
Qed.


(** *** The chunks of [read_file] *)

Lemma read_chunks_concat fuel n content :
  (0 < n)%nat -> (length content <= fuel)%nat ->
  concat (read_chunks fuel n content) = content.
Proof.
  intros Hn. revert content. induction fuel as [|fuel IH]; intros content Hlen.
  - destruct content; [reflexivity|simpl in Hlen; lia].
  - simpl. destruct content as [|b content]; [destruct n; reflexivity|].
    destruct n as [|n]; [lia|]. simpl.
    rewrite IH; [rewrite take_drop; reflexivity|].
    rewrite length_drop. simpl in Hlen. lia.
Qed.

(** The chunks put together are the file, and no chunk is longer than
    5 MiB. *)
Lemma read_file_concat content : concat (read_file content) = content.
Proof.
  unfold read_file. apply read_chunks_concat; [unfold chunk_size; lia|lia].
Qed.

Lemma read_chunks_bounded fuel n content :
  Forall (fun chunk => (length chunk <= n)%nat) (read_chunks fuel n content).
Proof.
  revert content. induction fuel as [|fuel IH]; intros content; simpl; [constructor|].
  destruct (take n content) as [|b data] eqn:Htake; [constructor|].
  constructor; [|apply IH].
  rewrite <- Htake, length_take. lia.
Qed.

Lemma read_file_bounded content :
  Forall (fun chunk => (Z.of_nat (length chunk) <= 5242880)%Z) (read_file content).
Proof.
  unfold read_file.
  assert (Hsize : Z.of_nat chunk_size = 5242880%Z) by (unfold chunk_size; lia).
  revert Hsize. generalize chunk_size as n. intros n Hsize.
  eapply Forall_impl; [apply read_chunks_bounded|].
  intros chunk Hc. cbv beta in Hc. lia.
Qed.

(** *** A complete run *)

Example demo_run :
  execute (demo_world true (completed (Some [bare_chapter; full_chapter]))) 15
          (analyze_audio demo_self "talk.mp3" false)
  = mkOutcome
      (Some (inr [ {| start_ms := 0; end_ms := 5000; text := ""; topics := [];
                      sentiment := Some "neutral"; confidence := f1_0 |};
                   {| start_ms := 5000; end_ms := 9000; text := "Prices";
                      topics := ["tech"; "sports"]; sentiment := Some "positive";
                      confidence := f0_8 |} ]))
      4
      [EvExists "talk.mp3";
       EvPostBegin "https://api.assemblyai.com/v2/upload";
       EvOpen "talk.mp3";
       EvPost "https://api.assemblyai.com/v2/upload"
              (DataStream [[Byte.x52; Byte.x49; Byte.x46; Byte.x46]]);
       EvPost "https://api.assemblyai.com/v2/transcript"
              (JsonBody (transcript_request "https://cdn.example/upload/1"));
       EvGet "https://api.assemblyai.com/v2/transcript/job1"; EvSleep 30;
       EvGet "https://api.assemblyai.com/v2/transcript/job1"; EvSleep 30;
       EvGet "https://api.assemblyai.com/v2/transcript/job1"; EvSleep 30;
       EvGet "https://api.assemblyai.com/v2/transcript/job1"]
      O.
Proof. vm_compute. reflexivity. Qed.

(** An upload that is refused fails the whole call, the exception of
    [_upload_file] wrapped by the [except] clause of [analyze_audio]. *)
Example refused_run :
  result (execute refusing_world 4 (analyze_audio demo_self "talk.mp3" false))
  = Some (inl (RuntimeError "Failed to upload file: Upload failed: Unauthorized")).
Proof. vm_compute. reflexivity. Qed.

(** C6.  When [is_url] is false and the path does not exist,
    [analyze_audio] raises [FileNotFoundError], the specification's
    NotFoundError, after the existence check alone: the trace of the run
    holds that check and no request (no upload, no submission, no poll). *)
Theorem analyze_audio_missing_file :
  forall w self audio_path,
    exists_ w audio_path = false ->
    forall fuel,
      let o := execute w (S fuel) (analyze_audio self audio_path false) in
      result o = Some (inl (FileNotFoundError ("Audio file not found: " ++ audio_path)))
      /\ trace o = [EvExists audio_path]
      /\ List.filter is_network (trace o) = []
      /\ gets o = O.
Proof.
  intros w self audio_path Hmissing fuel.
  assert (Hrun : execute w (S fuel) (analyze_audio self audio_path false)
                 = mkOutcome
                     (Some (inl (FileNotFoundError ("Audio file not found: " ++ audio_path))))
                     O [EvExists audio_path] fuel).
  { unfold execute, analyze_audio. simpl negb. cbv iota.
    erewrite run_bind_value;
      [|erewrite run_bind_value;
          [apply run_ret|rewrite run_perform; simpl; reflexivity]].
    rewrite Hmissing. simpl negb. cbv beta iota. apply run_raise. }
  cbv zeta. rewrite Hrun. repeat split; reflexivity.
Qed.

Lemma analyze_audio_missing_file_witness :
  exists_ (demo_world false (completed None)) "talk.mp3" = false
  /\ let o := execute (demo_world false (completed None)) 1
                (analyze_audio demo_self "talk.mp3" false) in
     result o = Some (inl (FileNotFoundError "Audio file not found: talk.mp3"))
     /\ trace o = [EvExists "talk.mp3"]
     /\ List.filter is_network (trace o) = []
     /\ gets o = O.
Proof.
  split; [reflexivity|].
  apply (analyze_audio_missing_file (demo_world false (completed None)) demo_self "talk.mp3").
  reflexivity.
Defined.

(** C8 (as amended).  For a file that can be read, [_upload_file] begins
    one request, opens the file and posts its chunks once.  When the
    response has status 200 and an [upload_url], the call returns that
    string as it is, empty or not; when the status is not 200 the call
    raises [RuntimeError("Upload failed: " + body)], the specification's
    UploadError, and no second request is made. *)
Theorem upload_file_outcomes :
  forall w self file_path content,
    file w file_path = inr content ->
    let request := DataStream (read_file content) in
    let upload_response := post w (base_url self ++ "/upload") (headers self) request in
    let tr := [EvPostBegin (base_url self ++ "/upload"); EvOpen file_path;
               EvPost (base_url self ++ "/upload") request] in
    (forall url,
       Response.status_code upload_response = 200 ->
       Json.upload_url (Response.json upload_response) = Some url ->
       forall fuel,
         execute w (3 + fuel) (_upload_file self file_path)
         = mkOutcome (Some (inr url)) O tr fuel)
    /\ (Response.status_code upload_response <> 200 ->
        forall fuel,
          execute w (3 + fuel) (_upload_file self file_path)
          = mkOutcome
              (Some (inl (RuntimeError ("Upload failed: " ++ Response.text upload_response))))
              O tr fuel)
    /\ length (List.filter is_post tr) = 1%nat
    /\ length (List.filter is_network tr) = 2%nat.
Proof.
  intros w self file_path content Hfile request upload_response tr.
  assert (Hstart : forall fuel,
    execute w (3 + fuel) (_upload_file self file_path)
    = run w fuel O tr
        (if negb (Response.status_code upload_response =? 200)
         then raise (RuntimeError ("Upload failed: " ++ Response.text upload_response))
         else match Json.upload_url (Response.json upload_response) with
              | Some url => ret url
              | None => raise (KeyError "upload_url")
              end)).
  { intros fuel. unfold execute.
    change (3 + fuel)%nat with (S (S (S fuel))).
    exact (run_upload_file_posted w self file_path content fuel O [] Hfile). }
  split; [|split; [|split; reflexivity]].
  - intros url Hstatus Hurl fuel.
    rewrite Hstart, Hstatus, Hurl. simpl negb. cbv iota. apply run_ret.
  - intros Hstatus fuel. rewrite Hstart.
    apply Z.eqb_neq in Hstatus. rewrite Hstatus. simpl negb. cbv iota. apply run_raise.
Qed.

Lemma upload_file_outcomes_witness :
  file refusing_world "talk.mp3" = inr [Byte.x52; Byte.x49; Byte.x46; Byte.x46]
  /\ execute refusing_world 3 (_upload_file demo_self "talk.mp3")
     = mkOutcome (Some (inl (RuntimeError "Upload failed: Unauthorized"))) O
         [EvPostBegin "https://api.assemblyai.com/v2/upload";
          EvOpen "talk.mp3";
          EvPost "https://api.assemblyai.com/v2/upload"
                 (DataStream (read_file [Byte.x52; Byte.x49; Byte.x46; Byte.x46]))]
         O
  /\ execute (demo_world true queued) 3 (_upload_file demo_self "talk.mp3")
     = mkOutcome (Some (inr "https://cdn.example/upload/1")) O
         [EvPostBegin "https://api.assemblyai.com/v2/upload";
          EvOpen "talk.mp3";
          EvPost "https://api.assemblyai.com/v2/upload"
                 (DataStream (read_file [Byte.x52; Byte.x49; Byte.x46; Byte.x46]))]
         O.
Proof.
  split; [reflexivity|]. split.
  - apply (proj1 (proj2 (upload_file_outcomes refusing_world demo_self "talk.mp3"
                           [Byte.x52; Byte.x49; Byte.x46; Byte.x46] eq_refl))).
    discriminate.
  - apply (proj1 (upload_file_outcomes (demo_world true queued) demo_self "talk.mp3"
                    [Byte.x52; Byte.x49; Byte.x46; Byte.x46] eq_refl)
                 "https://cdn.example/upload/1" eq_refl eq_refl).
Defined.

(** C8, as the specification states it: the URL that [_upload_file]
    returns need not be non-empty.  The file can be read, the service
    answers the upload with status 200 and the [upload_url] [""], and the
    call returns [""]: nothing in [_upload_file] looks at the string. *)
Lemma upload_file_returns_empty_url :
  let upload_response :=
    post empty_url_world (base_url demo_self ++ "/upload") (headers demo_self)
         (DataStream (read_file [Byte.x52; Byte.x49; Byte.x46; Byte.x46])) in
  exists_ empty_url_world "talk.mp3" = true
  /\ file empty_url_world "talk.mp3" = inr [Byte.x52; Byte.x49; Byte.x46; Byte.x46]
  /\ Response.status_code upload_response = 200
  /\ Json.upload_url (Response.json upload_response) = Some ""
  /\ result (execute empty_url_world 3 (_upload_file demo_self "talk.mp3")) = Some (inr "").
Proof. vm_compute. repeat split. Qed.

(** C7.  Once the job is submitted, and after any number [k] of polls that
    found it neither completed nor failed (each followed by a sleep of 30
    seconds): a poll that reads the status error makes [analyze_audio] raise
    [RuntimeError("Transcription failed: " + error)], the specification's
    TranscriptionError, with the service's message; a poll that reads
    completed ends the loop, and the call returns what the parsing of that
    transcript returns; a poll that reads anything else is followed by a
    sleep of 30 seconds and by the next GET.  No count or deadline ends the
    loop: while the status stays other than completed and error, the call
    has not returned, whatever the number of steps it is given; and, as
    trees, the loop after the sleep is the loop itself. *)
Theorem analyze_audio_polling :
  forall w self audio_path is_url content audio_url transcript_id k,
    job_submitted w self audio_path is_url content audio_url transcript_id ->
    let url := polling_endpoint_of self transcript_id in
    let answer_to i := Response.json (get w i url (headers self)) in
    let before := submission_trace self audio_path is_url content audio_url in
    let steps := submission_steps is_url in
    (forall i, (i < k)%nat -> pending (get w i url (headers self))) ->
    (Json.status (answer_to k) = Some "error" ->
     forall fuel,
       execute w (steps + (3 * k + S fuel)) (analyze_audio self audio_path is_url)
       = mkOutcome
           (Some (inl (RuntimeError
                         ("Transcription failed: "
                          ++ match Json.error (answer_to k) with
                             | Some error => error
                             | None => "Unknown error"
                             end))))
           (S k) (before ++ pending_polls url k ++ [EvGet url]) fuel)
    /\ (Json.status (answer_to k) = Some "completed" ->
        forall fuel,
          execute w (steps + (3 * k + S fuel)) (analyze_audio self audio_path is_url)
          = mkOutcome (Some (process_results (answer_to k)))
                      (S k) (before ++ pending_polls url k ++ [EvGet url]) fuel)
    /\ (pending (get w k url (headers self)) ->
        execute w (steps + (3 * S k + 0)) (analyze_audio self audio_path is_url)
        = mkOutcome None (S k)
            (before ++ pending_polls url k ++ [EvGet url; EvSleep 30]) O
        /\ trace (execute w (steps + (3 * S k + 1)) (analyze_audio self audio_path is_url))
           = (before ++ pending_polls url k ++ [EvGet url; EvSleep 30; EvGet url])%list)
    /\ ((forall i, pending (get w i url (headers self))) ->
        forall fuel,
          result (execute w fuel (analyze_audio self audio_path is_url)) = None)
    /\ eutt eq (poll self url)
         (ITree.bind (ITree.trigger (requests_get url (headers self)))
            (fun response =>
               let transcript := Response.json response in
               if decide (Json.status transcript = Some "completed")
               then Ret (inr transcript)
               else if decide (Json.status transcript = Some "error")
               then Ret (inl (RuntimeError
                                ("Transcription failed: "
                                 ++ default "Unknown error" (Json.error transcript))))
               else ITree.bind (ITree.trigger (time_sleep 30))
                               (fun _ => poll self url))).
Proof.
  intros w self audio_path is_url content audio_url transcript_id k Hsub
         url answer_to before steps Hpending.
  subst steps answer_to.
  assert (Hsnoc : forall tail,
            (pending_polls url (S k) ++ tail
             = pending_polls url k ++ EvGet url :: EvSleep 30 :: tail)%list).
  { intros tail. clear. induction k as [|k IH]; [reflexivity|].
    change (pending_polls url (S (S k)))
      with (EvGet url :: EvSleep 30 :: pending_polls url (S k)).
    rewrite <- !app_comm_cons, IH. reflexivity. }
  split; [|split; [|split; [|split]]].
  - intros He fuel.
    apply (run_analyze_audio_error w self _ _ _ _ _ Hsub k Hpending He).
  - intros Hc fuel.
    apply (run_analyze_audio_completed w self _ _ _ _ _ Hsub k Hpending Hc).
  - intros Hk.
    assert (Hpending' : forall i, (i < S k)%nat -> pending (get w i url (headers self))).
    { intros i Hi. destruct (decide (i = k)) as [->|Hne]; [exact Hk|apply Hpending; lia]. }
    split.
    + rewrite (run_analyze_audio_pending w self _ _ _ _ _ Hsub (S k) Hpending').
      fold url before. rewrite <- (app_nil_r (pending_polls url (S k))), Hsnoc.
      reflexivity.
    + rewrite (run_analyze_audio_retry w self _ _ _ _ _ Hsub (S k) Hpending').
      fold url before. rewrite Hsnoc. reflexivity.
  - intros Hall. apply (run_analyze_audio_forever w self _ _ _ _ _ Hsub Hall).
  - apply poll_round.
Qed.

Lemma demo_job_submitted is_url final :
  job_submitted (demo_world true final) demo_self "talk.mp3" is_url
    [Byte.x52; Byte.x49; Byte.x46; Byte.x46]
    (if is_url then "talk.mp3" else "https://cdn.example/upload/1") "job1".
Proof. destruct is_url; repeat split; reflexivity. Qed.

Lemma demo_pending final i :
  (i < 3)%nat ->
  pending (get (demo_world true final) i (polling_endpoint_of demo_self "job1")
               (headers demo_self)).
Proof.
  intros Hi. unfold pending. simpl.
  apply Nat.ltb_lt in Hi. rewrite Hi. split; discriminate.
Qed.

Lemma stuck_job_submitted :
  job_submitted stuck_world demo_self "talk.mp3" false
    [Byte.x52; Byte.x49; Byte.x46; Byte.x46] "https://cdn.example/upload/1" "job1".
Proof. repeat split; reflexivity. Qed.

Lemma stuck_pending i :
  pending (get stuck_world i (polling_endpoint_of demo_self "job1") (headers demo_self)).
Proof. split; discriminate. Qed.

Lemma analyze_audio_polling_witness :
  execute (demo_world true (failed (Some "decoding failed"))) (5 + (3 * 3 + 1))
          (analyze_audio demo_self "talk.mp3" false)
  = mkOutcome (Some (inl (RuntimeError "Transcription failed: decoding failed"))) 4
      (submission_trace demo_self "talk.mp3" false [Byte.x52; Byte.x49; Byte.x46; Byte.x46]
                        "https://cdn.example/upload/1"
       ++ pending_polls "https://api.assemblyai.com/v2/transcript/job1" 3
       ++ [EvGet "https://api.assemblyai.com/v2/transcript/job1"])
      O
  /\ result (execute stuck_world 1000 (analyze_audio demo_self "talk.mp3" false)) = None.
Proof.
  split.
  - apply (proj1 (analyze_audio_polling
                    (demo_world true (failed (Some "decoding failed"))) demo_self
                    "talk.mp3" false [Byte.x52; Byte.x49; Byte.x46; Byte.x46]
                    "https://cdn.example/upload/1" "job1" 3
                    (demo_job_submitted false _) (demo_pending _))).
    reflexivity.
  - apply (proj1 (proj2 (proj2 (proj2 (analyze_audio_polling
                    stuck_world demo_self
                    "talk.mp3" false [Byte.x52; Byte.x49; Byte.x46; Byte.x46]
                    "https://cdn.example/upload/1" "job1" 0
                    stuck_job_submitted (fun i _ => stuck_pending i)))))).
    exact stuck_pending.
Defined.

(** C5.  When the poll that ends the loop reads the status completed and
    the transcript has no [chapters] key, or an empty [chapters] list,
    [analyze_audio] returns the empty list of segments; it does not
    raise. *)
Theorem analyze_audio_no_chapters :
  forall w self audio_path is_url content audio_url transcript_id k,
    job_submitted w self audio_path is_url content audio_url transcript_id ->
    let url := polling_endpoint_of self transcript_id in
    let transcript := Response.json (get w k url (headers self)) in
    (forall i, (i < k)%nat -> pending (get w i url (headers self))) ->
    Json.status transcript = Some "completed" ->
    Json.chapters transcript = None \/ Json.chapters transcript = Some [] ->
    forall fuel,
      result (execute w (submission_steps is_url + (3 * k + S fuel))
                      (analyze_audio self audio_path is_url))
      = Some (inr []).
Proof.
  intros w self audio_path is_url content audio_url transcript_id k Hsub
         url transcript Hpending Hc Hch fuel.
  rewrite (run_analyze_audio_completed w self _ _ _ _ _ Hsub k Hpending Hc).
  fold url transcript. simpl. unfold process_results.
  destruct Hch as [-> | ->]; reflexivity.
Qed.

Lemma analyze_audio_no_chapters_witness :
  result (execute (demo_world true (completed None)) (5 + (3 * 3 + 1))
                  (analyze_audio demo_self "talk.mp3" false)) = Some (inr [])
  /\ result (execute (demo_world true (completed (Some []))) (1 + (3 * 3 + 1))
                     (analyze_audio demo_self "talk.mp3" true)) = Some (inr []).
Proof.
  split.
  - apply (analyze_audio_no_chapters (demo_world true (completed None)) demo_self
             "talk.mp3" false [Byte.x52; Byte.x49; Byte.x46; Byte.x46]
             "https://cdn.example/upload/1" "job1" 3
             (demo_job_submitted false _) (demo_pending _) eq_refl).
    left. reflexivity.
  - apply (analyze_audio_no_chapters (demo_world true (completed (Some []))) demo_self
             "talk.mp3" true [] "talk.mp3" "job1" 3
             (demo_job_submitted true _) (demo_pending _) eq_refl).
    right. reflexivity.
Defined.

(** C4.  When the poll that ends the loop reads the status completed and
    every chapter of the transcript has its [start] and its [end],
    [analyze_audio] returns one segment per chapter, in order; the segment
    has the chapter's [start] as [start_ms], its [end] as [end_ms], its
    [summary] as [text], its [topics], [sentiment] and [confidence] where
    the chapter has them, and [""], the empty list, ["neutral"] and [1.0]
    where it has not. *)
Theorem analyze_audio_defaults :
  forall w self audio_path is_url content audio_url transcript_id k chapters,
    job_submitted w self audio_path is_url content audio_url transcript_id ->
    let url := polling_endpoint_of self transcript_id in
    let transcript := Response.json (get w k url (headers self)) in
    (forall i, (i < k)%nat -> pending (get w i url (headers self))) ->
    Json.status transcript = Some "completed" ->
    Json.chapters transcript = Some chapters ->
    Forall has_times chapters ->
    exists segs,
      (forall fuel,
         result (execute w (submission_steps is_url + (3 * k + S fuel))
                         (analyze_audio self audio_path is_url))
         = Some (inr segs))
      /\ Forall2 maps_to chapters segs.
Proof.
  intros w self audio_path is_url content audio_url transcript_id k chapters Hsub
         url transcript Hpending Hc Hch Hall.
  destruct (process_results_maps_to transcript chapters Hch Hall) as (segs & Hres & HF).
  exists segs. split; [|exact HF].
  intros fuel.
  rewrite (run_analyze_audio_completed w self _ _ _ _ _ Hsub k Hpending Hc).
  fold url transcript. simpl. rewrite Hres. reflexivity.
Qed.

Lemma analyze_audio_defaults_witness :
  exists segs,
    (forall fuel,
       result (execute (demo_world true (completed (Some [bare_chapter; full_chapter])))
                       (5 + (3 * 3 + S fuel))
                       (analyze_audio demo_self "talk.mp3" false))
       = Some (inr segs))
    /\ Forall2 maps_to [bare_chapter; full_chapter] segs.
Proof.
  apply (analyze_audio_defaults
           (demo_world true (completed (Some [bare_chapter; full_chapter]))) demo_self
           "talk.mp3" false [Byte.x52; Byte.x49; Byte.x46; Byte.x46]
           "https://cdn.example/upload/1" "job1" 3 [bare_chapter; full_chapter]
           (demo_job_submitted false _) (demo_pending _) eq_refl eq_refl).
  repeat constructor; eexists; reflexivity.
Defined.

(** The first chapter without its times. *)
Lemma first_missing_times chapters :
  Exists (fun c => Chapter.start c = None \/ Chapter.end_ c = None) chapters ->
  exists good chapter rest,
    chapters = (good ++ chapter :: rest)%list
    /\ Forall has_times good
    /\ (Chapter.start chapter = None \/ Chapter.end_ chapter = None).
Proof.
  induction chapters as [|c chapters IH]; intros Hex; [inversion Hex|].
  destruct (Chapter.start c) as [start|] eqn:Hs;
    [destruct (Chapter.end_ c) as [end_|] eqn:He|].
  - assert (Hrest : Exists (fun c => Chapter.start c = None \/ Chapter.end_ c = None)
                           chapters).
    { inversion Hex as [? ? [H|H]|]; subst; [congruence|congruence|assumption]. }
    destruct (IH Hrest) as (good & chapter & rest & -> & Hgood & Hbad).
    exists (c :: good), chapter, rest. split; [reflexivity|]. split; [|exact Hbad].
    constructor; [|exact Hgood]. split; eexists; eassumption.
  - exists [], c, chapters. split; [reflexivity|]. split; [constructor|]. right. exact He.
  - exists [], c, chapters. split; [reflexivity|]. split; [constructor|]. left. exact Hs.
Qed.

(** C10.  When the poll that ends the loop reads the status completed and
    some chapter of the transcript lacks its [start] or its [end],
    [analyze_audio] raises [KeyError], for the key that the first such
    chapter lacks ([start] if it lacks both): an exception that is none of
    the error kinds the function raises itself, and that nothing catches.
    The other four keys are optional: a chapter with its two times alone is
    turned into a segment. *)
Theorem analyze_audio_missing_times :
  forall w self audio_path is_url content audio_url transcript_id k chapters,
    job_submitted w self audio_path is_url content audio_url transcript_id ->
    let url := polling_endpoint_of self transcript_id in
    let transcript := Response.json (get w k url (headers self)) in
    let call fuel :=
      execute w (submission_steps is_url + (3 * k + S fuel))
              (analyze_audio self audio_path is_url) in
    (forall i, (i < k)%nat -> pending (get w i url (headers self))) ->
    Json.status transcript = Some "completed" ->
    Json.chapters transcript = Some chapters ->
    Exists (fun c => Chapter.start c = None \/ Chapter.end_ c = None) chapters ->
    (exists key,
       (key = "start" \/ key = "end")
       /\ forall fuel, result (call fuel) = Some (inl (KeyError key)))
    /\ (forall good chapter rest,
          chapters = (good ++ chapter :: rest)%list ->
          Forall has_times good ->
          Chapter.start chapter = None \/ Chapter.end_ chapter = None ->
          forall fuel,
            result (call fuel)
            = Some (inl (KeyError (match Chapter.start chapter with
                                   | None => "start"
                                   | Some _ => "end"
                                   end))))
    /\ (forall start end_,
          segment_of_chapter (Chapter.mk (Some start) (Some end_) None None None None)
          = inr {| start_ms := start; end_ms := end_; text := ""; topics := [];
                   sentiment := Some "neutral"; confidence := f1_0 |}).
Proof.
  intros w self audio_path is_url content audio_url transcript_id k chapters
         Hsub url transcript call Hpending Hc Hch Hex.
  assert (Hfirst : forall good chapter rest,
            chapters = (good ++ chapter :: rest)%list ->
            Forall has_times good ->
            Chapter.start chapter = None \/ Chapter.end_ chapter = None ->
            forall fuel,
              result (call fuel) = Some (inl (KeyError (missing_key chapter)))).
  { intros good chapter rest -> Hgood Hbad fuel. unfold call.
    rewrite (run_analyze_audio_completed w self _ _ _ _ _ Hsub k Hpending Hc).
    fold url transcript. simpl.
    rewrite (process_results_missing transcript good chapter rest Hch Hgood);
      [reflexivity|].
    intros [[s Hs] [e He]]. destruct Hbad as [H|H]; congruence. }
  split; [|split; [exact Hfirst|reflexivity]].
  destruct (first_missing_times chapters Hex) as (good & chapter & rest & Heq & Hgood & Hbad).
  exists (missing_key chapter). split.
  - unfold missing_key. destruct (Chapter.start chapter); [right|left]; reflexivity.
  - apply (Hfirst good chapter rest Heq Hgood Hbad).
Qed.

Lemma analyze_audio_missing_times_witness :
  result (execute (demo_world true (completed (Some [bare_chapter; endless_chapter; full_chapter])))
                  (5 + (3 * 3 + 1))
                  (analyze_audio demo_self "talk.mp3" false))
  = Some (inl (KeyError "end")).
Proof.
  apply (proj1 (proj2 (analyze_audio_missing_times
                  (demo_world true (completed (Some [bare_chapter; endless_chapter; full_chapter])))
                  demo_self "talk.mp3" false [Byte.x52; Byte.x49; Byte.x46; Byte.x46]
                  "https://cdn.example/upload/1" "job1" 3
                  [bare_chapter; endless_chapter; full_chapter]
                  (demo_job_submitted false _) (demo_pending _) eq_refl eq_refl
                  ltac:(right; left; right; reflexivity)))
               [bare_chapter] endless_chapter [full_chapter] eq_refl
               ltac:(repeat constructor; eexists; reflexivity)
               (or_intror eq_refl)).
Defined.

End AnalyzerFacts.

(** ** [ContentMatcher]: beyond the claims *)

Module MatcherExtras.
Import PyFloatFacts PySorted PySortedFacts MatcherFacts.

Lemma add_sign x y : has_sign false x -> has_sign false y -> has_sign false (add x y).
Proof.
  unfold add, SF64add, SFadd.
  destruct x as [sx|sx| |sx mx ex], y as [sy|sy| |sy my ey]; simpl;
    intros Hx Hy; subst; simpl; auto.
  destruct (shl_align mx ex (Z.min ex ey)) as [mx' ex'].
  destruct (shl_align my ey (Z.min ex ey)) as [my' ey']. simpl.
  unfold binary_round. destruct (shl_align _ _ _) as [mz ez].
  apply binary_round_aux_sign.
Qed.

(** The score before the weighting by confidence: it has no minus sign. *)
Lemma raw_score_sign (n : nat) (tone : bool) :
  has_sign false
    (if tone then add (add f0_0 (mul (of_int (Z.of_nat n)) f0_5)) f0_3
     else add f0_0 (mul (of_int (Z.of_nat n)) f0_5)).
Proof.
  assert (Ha : has_sign false (add f0_0 (mul (of_int (Z.of_nat n)) f0_5))).
  { apply add_sign; [reflexivity|].
    apply mul_sign; [apply of_int_sign; lia|reflexivity]. }
  destruct tone; [apply add_sign; [exact Ha|reflexivity]|exact Ha].
Qed.

(** A product that is greater than zero, of a factor without a minus
    sign: both factors are greater than zero. *)
Lemma mul_positive_inv x c :
  has_sign false x -> positive (mul x c) -> positive x /\ positive c.
Proof.
  unfold positive, gtb, mul, SF64mul, SFmul, SFltb.
  destruct x as [sx|sx| |sx mx ex], c as [sc|sc| |sc mc ec]; simpl;
    intros Hx; subst; simpl; try discriminate;
    try (destruct sc; simpl; try discriminate; intros _; split; reflexivity).
  destruct sc; simpl;
    match goal with
    | |- context [binary_round_aux ?p ?q ?s ?m ?e ?l] =>
        pose proof (binary_round_aux_sign s m e l) as Hs;
        destruct (binary_round_aux p q s m e l) as [s'|s'| |s' m' e']
    end; simpl in Hs; subst; simpl; intros H; try discriminate H; split; reflexivity.
Qed.

Lemma no_common_topics_score segment prefs :
  size (common_topics segment prefs) = O ->
  tone_matches segment prefs = false ->
  gtb (score segment prefs) f0_0 = false.
Proof.
  intros Hn Ht. unfold score. rewrite Hn, Ht. apply mul_zero_l_not_positive.
Qed.

Lemma collect_matches_none segs prefs :
  (forall segment, In segment segs -> gtb (score segment prefs) f0_0 = false) ->
  collect_matches segs prefs = [].
Proof.
  induction segs as [|s segs IH]; intros H; [reflexivity|].
  rewrite collect_matches_cons, (H s (or_introl eq_refl)).
  apply IH. intros segment Hin. apply H. right. exact Hin.
Qed.

(** The score against preferences without topics and without tone: the
    sentiment [None] alone earns the 0.3 of the tone. *)
Lemma score_no_preferences segment topics_pref :
  topics_pref = None \/ topics_pref = Some [] ->
  score segment {| pref_topics := topics_pref; preferred_tone := None |}
  = mul (match sentiment segment with None => f0_3 | Some _ => f0_0 end)
        (confidence segment).
Proof.
  intros Hempty. unfold score, common_topics, tone_matches.
  cbn [pref_topics preferred_tone].
  assert (Hsize : size (list_to_set (topics segment) ∩ list_to_set (default [] topics_pref)
                        : gset string) = O).
  { destruct Hempty as [-> | ->]; simpl;
      rewrite (right_absorb_L ∅ (∩)); apply size_empty. }
  rewrite Hsize. destruct (sentiment segment); reflexivity.
Qed.

(** X1.  Preferences that name no topic (the key [topics] missing, or an
    empty list) and no tone.  [match_content] then returns exactly the
    segments whose sentiment is [None] and whose score, 0.3 times the
    confidence, is greater than zero: [None == None] is true, and earns the
    0.3 of the tone.  It returns the empty list when every sentiment of the
    working set is a string, and on an empty working set whatever the
    preferences.  Such a segment comes out of [analyze_audio]: a chapter
    whose [sentiment] is [null] and that has no [confidence] becomes a
    segment that [match_content] returns, with score 0.3, for the empty
    preferences. *)
Theorem match_content_nothing_to_match :
  (forall self topics_pref segment sc,
     topics_pref = None \/ topics_pref = Some [] ->
     (In (segment, sc)
         (match_content self {| pref_topics := topics_pref; preferred_tone := None |})
      <-> In segment (segments self)
          /\ sentiment segment = None
          /\ sc = mul f0_3 (confidence segment)
          /\ gtb sc f0_0 = true))
  /\ (forall self topics_pref,
        topics_pref = None \/ topics_pref = Some [] ->
        Forall (fun segment => sentiment segment <> None) (segments self) ->
        match_content self {| pref_topics := topics_pref; preferred_tone := None |} = [])
  /\ (forall prefs, match_content ContentMatcher_init prefs = [])
  /\ (forall chapter segment,
        segment_of_chapter chapter = inr segment ->
        Chapter.sentiment chapter = Some None ->
        Chapter.confidence chapter = None ->
        match_content (add_segments ContentMatcher_init [segment]) no_preferences
        = [(segment, f0_3)]).
Proof.
  split; [|split; [|split; [reflexivity|]]].
  - intros self topics_pref segment sc Hempty.
    set (prefs := {| pref_topics := topics_pref; preferred_tone := None |}).
    transitivity (In (segment, sc) (collect_matches (segments self) prefs)).
    { split; apply Permutation_in; [|symmetry]; apply match_content_perm. }
    rewrite collect_matches_In. unfold prefs.
    rewrite (score_no_preferences segment topics_pref Hempty).
    destruct (sentiment segment) as [s|].
    + split; [|intros (_ & Hs & _); discriminate].
      intros (_ & -> & Hpos).
      pose proof (mul_zero_l_not_positive false (confidence segment)) as Hzero.
      change (S754_zero false) with f0_0 in Hzero. congruence.
    + tauto.
  - intros self topics_pref Hempty Hstr. unfold match_content.
    rewrite collect_matches_none; [reflexivity|].
    intros segment Hin. rewrite Forall_forall in Hstr.
    apply list_elem_of_In in Hin. specialize (Hstr segment Hin).
    rewrite (score_no_preferences segment topics_pref Hempty).
    destruct (sentiment segment) as [s|]; [|congruence].
    apply (mul_zero_l_not_positive false).
  - intros chapter segment Hseg Hs Hc.
    unfold segment_of_chapter in Hseg.
    destruct (Chapter.start chapter) as [start|]; [|discriminate].
    destruct (Chapter.end_ chapter) as [end_|]; [|discriminate].
    rewrite Hs, Hc in Hseg. simpl in Hseg. injection Hseg as <-.
    unfold match_content, no_preferences. simpl segments.
    rewrite collect_matches_cons.
    rewrite (score_no_preferences _ None (or_introl eq_refl)).
    reflexivity.
Qed.

Lemma match_content_nothing_to_match_witness :
  match_content (add_segments ContentMatcher_init [example_segment])
                {| pref_topics := Some []; preferred_tone := None |} = []
  /\ match_content
       (add_segments ContentMatcher_init
          [ {| start_ms := 0; end_ms := 5000; text := ""; topics := [];
               sentiment := None; confidence := f1_0 |} ])
       no_preferences
     = [( {| start_ms := 0; end_ms := 5000; text := ""; topics := [];
             sentiment := None; confidence := f1_0 |}, f0_3)].
Proof.
  split.
  - apply (proj1 (proj2 match_content_nothing_to_match)).
    + right. reflexivity.
    + repeat constructor. discriminate.
  - apply (proj2 (proj2 (proj2 match_content_nothing_to_match)) null_sentiment_chapter);
      reflexivity.
Defined.

Lemma same_elements_list_to_set (l1 l2 : list string) :
  same_elements l1 l2 -> (list_to_set l1 : gset string) = list_to_set l2.
Proof.
  intros H. apply set_eq. intros t. rewrite !elem_of_list_to_set. apply H.
Qed.

(** X2.  Topics count as sets.  Two segments whose topic lists have the
    same elements (in any order, with any repetitions), and the same
    sentiment and confidence, get the same score from two preferences whose
    topic lists have the same elements and whose tone is the same; a
    missing [topics] key counts as the empty list. *)
Theorem score_topics_as_sets :
  forall segment segment' prefs prefs',
    same_elements (topics segment) (topics segment') ->
    sentiment segment = sentiment segment' ->
    confidence segment = confidence segment' ->
    same_elements (default [] (pref_topics prefs)) (default [] (pref_topics prefs')) ->
    preferred_tone prefs = preferred_tone prefs' ->
    score segment prefs = score segment' prefs'.
Proof.
  intros segment segment' prefs prefs' Htopics Hsent Hconf Hprefs Htone.
  unfold score, common_topics, tone_matches.
  rewrite (same_elements_list_to_set _ _ Htopics),
          (same_elements_list_to_set _ _ Hprefs), Hsent, Hconf, Htone.
  reflexivity.
Qed.

Lemma score_topics_as_sets_witness :
  score {| start_ms := 0; end_ms := 1; text := "a";
           topics := ["tech"; "sports"; "tech"]; sentiment := Some "positive";
           confidence := f0_8 |}
        {| pref_topics := None; preferred_tone := Some "positive" |}
  = score {| start_ms := 5; end_ms := 9; text := "b";
             topics := ["sports"; "tech"]; sentiment := Some "positive";
             confidence := f0_8 |}
          {| pref_topics := Some []; preferred_tone := Some "positive" |}.
Proof.
  apply score_topics_as_sets; try reflexivity.
  - intros t. simpl. rewrite !elem_of_cons, !elem_of_nil. tauto.
  - intros t. simpl. tauto.
Defined.

(** X3.  A segment is in the result of [match_content] only if its
    confidence is greater than zero (not zero, not negative, not NaN) and
    it shares a topic with the preferences or has the preferred tone.  The
    two conditions are not enough: with the confidence [5e-324] and the tone
    alone, the product [0.3 * 5e-324] rounds to zero and the segment is left
    out. *)
Theorem match_content_needs_confidence_and_match :
  (forall self prefs segment sc,
     In (segment, sc) (match_content self prefs) ->
     gtb (confidence segment) f0_0 = true
     /\ (size (common_topics segment prefs) <> O \/ tone_matches segment prefs = true))
  /\ (let segment := {| start_ms := 0; end_ms := 1; text := ""; topics := [];
                        sentiment := Some "neutral"; confidence := f_tiny |} in
      let prefs := {| pref_topics := None; preferred_tone := Some "neutral" |} in
      gtb (confidence segment) f0_0 = true
      /\ tone_matches segment prefs = true
      /\ score segment prefs = f0_0
      /\ match_content (add_segments ContentMatcher_init [segment]) prefs = []).
Proof.
  split; [|vm_compute; repeat split].
  intros self prefs segment sc Hin.
  apply (Permutation_in _ (match_content_perm self prefs)) in Hin.
  apply collect_matches_In in Hin. destruct Hin as (_ & -> & Hpos).
  split.
  - pose proof (raw_score_sign (size (common_topics segment prefs))
                               (tone_matches segment prefs)) as Hsign.
    apply (mul_positive_inv _ _ Hsign Hpos).
  - destruct (size (common_topics segment prefs)) as [|n] eqn:Hn; [|left; discriminate].
    destruct (tone_matches segment prefs) eqn:Ht; [right; reflexivity|].
    rewrite (no_common_topics_score segment prefs Hn Ht) in Hpos. discriminate.
Qed.

Lemma match_content_needs_confidence_and_match_witness :
  gtb (confidence example_segment) f0_0 = true
  /\ (size (common_topics example_segment example_preferences) <> O
      \/ tone_matches example_segment example_preferences = true).
Proof.
  apply (proj1 match_content_needs_confidence_and_match
           (add_segments ContentMatcher_init [example_segment])
           example_preferences example_segment f0_64_up).
  vm_compute. left. reflexivity.
Defined.

(** X4.  Adding segments keeps every match: a pair of the result before
    [add_segments] is a pair of the result after it, with the same score,
    and the result after it holds the matches of the old working set and
    those of the added segments, nothing else. *)
Theorem match_content_after_add_segments :
  forall self added prefs,
    (forall pair,
       In pair (match_content self prefs) ->
       In pair (match_content (add_segments self added) prefs))
    /\ match_content (add_segments self added) prefs
       ≡ₚ (match_content self prefs
           ++ match_content (add_segments ContentMatcher_init added) prefs)%list.
Proof.
  intros self added prefs.
  assert (Hperm : match_content (add_segments self added) prefs
                  ≡ₚ (match_content self prefs
                      ++ match_content (add_segments ContentMatcher_init added) prefs)%list).
  { rewrite !match_content_perm. simpl. apply Permutation_refl'.
    apply collect_matches_app. }
  split; [|exact Hperm].
  intros pair Hin. apply (Permutation_in _ (Permutation_sym Hperm)).
  apply in_or_app. left. exact Hin.
Qed.

Lemma match_content_after_add_segments_witness :
  In (example_segment, f0_64_up)
     (match_content
        (add_segments (add_segments ContentMatcher_init [example_segment]) [example_segment])
        example_preferences).
Proof.
  apply (proj1 (match_content_after_add_segments
                  (add_segments ContentMatcher_init [example_segment])
                  [example_segment] example_preferences)).
  vm_compute. left. reflexivity.
Defined.

(** X5.  The two components together.  A chapter that has its times and
    none of [topics], [sentiment] and [confidence] becomes a segment that
    [match_content] returns exactly for the preferences whose tone is
    ["neutral"], whatever their topics; its score is then [0.3]. *)
Theorem bare_chapter_matches_neutral_only :
  forall chapter segment prefs,
    segment_of_chapter chapter = inr segment ->
    Chapter.topics chapter = None ->
    Chapter.sentiment chapter = None ->
    Chapter.confidence chapter = None ->
    match_content (add_segments ContentMatcher_init [segment]) prefs
    = if decide (preferred_tone prefs = Some "neutral") then [(segment, f0_3)] else [].
Proof.
  intros chapter segment prefs Hseg Ht Hs Hc.
  unfold segment_of_chapter in Hseg.
  destruct (Chapter.start chapter) as [start|]; [|discriminate].
  destruct (Chapter.end_ chapter) as [end_|]; [|discriminate].
  rewrite Ht, Hs, Hc in Hseg. simpl in Hseg. injection Hseg as <-.
  unfold match_content. simpl segments. rewrite collect_matches_cons.
  assert (Hscore : forall T tone,
            score {| start_ms := start; end_ms := end_;
                     text := default "" (Chapter.summary chapter); topics := [];
                     sentiment := Some "neutral"; confidence := f1_0 |}
                  {| pref_topics := T; preferred_tone := tone |}
            = if decide (tone = Some "neutral") then f0_3 else f0_0).
  { intros T tone. unfold score, common_topics, tone_matches.
    cbn [topics sentiment confidence pref_topics preferred_tone].
    rewrite list_to_set_nil, (left_absorb_L ∅ (∩)), size_empty.
    destruct tone as [tone|];
      [destruct (String.eqb_spec "neutral" tone) as [<-|Hne]|].
    - rewrite decide_True by reflexivity. vm_compute. reflexivity.
    - rewrite decide_False by congruence. vm_compute. reflexivity.
    - rewrite decide_False by discriminate. vm_compute. reflexivity. }
  destruct prefs as [T tone]. simpl preferred_tone. rewrite (Hscore T tone).
  destruct (decide (tone = Some "neutral")); reflexivity.
Qed.

Lemma bare_chapter_matches_neutral_only_witness :
  match_content
    (add_segments ContentMatcher_init
       [ {| start_ms := 0; end_ms := 5000; text := ""; topics := [];
            sentiment := Some "neutral"; confidence := f1_0 |} ])
    {| pref_topics := Some ["tech"]; preferred_tone := Some "neutral" |}
  = [( {| start_ms := 0; end_ms := 5000; text := ""; topics := [];
          sentiment := Some "neutral"; confidence := f1_0 |}, f0_3)].
Proof.
  apply (bare_chapter_matches_neutral_only bare_chapter _
           {| pref_topics := Some ["tech"]; preferred_tone := Some "neutral" |});
    reflexivity.
Defined.

End MatcherExtras.

(** ** [AudioAnalyzer]: beyond the claims *)

Module AnalyzerExtras.
Import RunFacts AnalyzerFacts.
#[local] Arguments run : simpl never.
#[local] Arguments continue_with : simpl never.

(** *** [read_file] *)

Lemma read_chunks_nil fuel n : read_chunks fuel n [] = [].
Proof. destruct fuel; [reflexivity|]. simpl. rewrite take_nil. reflexivity. Qed.

Lemma read_chunks_cons fuel n b content :
  (0 < n)%nat ->
  read_chunks (S fuel) n (b :: content)
  = take n (b :: content) :: read_chunks fuel n (drop n (b :: content)).
Proof. intros Hn. destruct n as [|n]; [lia|]. reflexivity. Qed.

Lemma read_chunks_nonempty fuel n content :
  Forall (fun chunk => chunk <> []) (read_chunks fuel n content).
Proof.
  revert content. induction fuel as [|fuel IH]; intros content; simpl; [constructor|].
  destruct (take n content) as [|b data] eqn:Htake; [constructor|].
  constructor; [discriminate|apply IH].
Qed.

(** The number [k] of chunks is the length divided by the chunk size,
    rounded up. *)
Lemma read_chunks_count fuel n content :
  (0 < n)%nat -> (length content <= fuel)%nat ->
  let k := length (read_chunks fuel n content) in
  (length content <= n * k /\ n * k < length content + n)%nat.
Proof.
  intros Hn. revert content. induction fuel as [|fuel IH]; intros content Hlen.
  - destruct content; cbv zeta; simpl in *; lia.
  - destruct content as [|b content]; [rewrite read_chunks_nil; cbv zeta; simpl; lia|].
    rewrite read_chunks_cons by exact Hn. cbv zeta.
    change (length (?c :: ?l)) with (S (length l)).
    specialize (IH (drop n (b :: content))).
    rewrite length_drop in IH. simpl length in *. cbv zeta in IH.
    assert (Hfuel : (S (length content) - n <= fuel)%nat) by lia.
    specialize (IH Hfuel).
    destruct (length (read_chunks fuel n (drop n (b :: content)))) as [|k']; nia.
Qed.

(** Every chunk but the last is full. *)
Lemma read_chunks_full fuel n content i chunk :
  (0 < n)%nat ->
  read_chunks fuel n content !! i = Some chunk ->
  (S i < length (read_chunks fuel n content))%nat ->
  length chunk = n.
Proof.
  intros Hn. revert content i.
  induction fuel as [|fuel IH]; intros content i Hi Hlast; [discriminate|].
  destruct content as [|b content]; [rewrite read_chunks_nil in Hi; discriminate|].
  rewrite read_chunks_cons in Hi, Hlast by exact Hn.
  destruct i as [|i].
  - injection Hi as <-. rewrite length_take.
    simpl length in Hlast.
    destruct (drop n (b :: content)) as [|b' rest] eqn:Hdrop.
    + rewrite read_chunks_nil in Hlast. simpl in Hlast. lia.
    + assert (Hlen : length (drop n (b :: content)) = S (length rest))
        by (rewrite Hdrop; reflexivity).
      rewrite length_drop in Hlen. lia.
  - simpl in Hi. simpl length in Hlast. apply (IH _ i Hi). lia.
Qed.

Lemma chunk_size_value : Z.of_nat chunk_size = 5242880%Z.
Proof. unfold chunk_size. lia. Qed.

(** X6.  The chunks [read_file] yields, put end to end, are the bytes of
    the file; no chunk is empty and none is longer than 5242880 bytes
    (5 MiB). *)
Theorem read_file_chunks :
  forall content,
    concat (read_file content) = content
    /\ Forall (fun chunk =>
                 chunk <> [] /\ (Z.of_nat (length chunk) <= 5242880)%Z)
              (read_file content).
Proof.
  intros content. split; [apply read_file_concat|].
  apply Forall_and. split; [apply read_chunks_nonempty|apply read_file_bounded].
Qed.

(** X7.  [read_file] yields the length of the file divided by 5242880,
    rounded up, chunks: none for an empty file, and one for a file of at
    most 5 MiB.  Every chunk but the last has 5242880 bytes. *)
Theorem read_file_count :
  forall content,
    Z.of_nat (length (read_file content))
    = ((Z.of_nat (length content) + 5242879) / 5242880)%Z
    /\ (content = [] -> read_file content = [])
    /\ (content <> [] -> (Z.of_nat (length content) <= 5242880)%Z ->
        read_file content = [content])
    /\ (forall i chunk,
          read_file content !! i = Some chunk ->
          (S i < length (read_file content))%nat ->
          Z.of_nat (length chunk) = 5242880%Z).
Proof.
  intros content. unfold read_file.
  pose proof chunk_size_value as Hsize.
  assert (Hpos : (0 < chunk_size)%nat) by lia.
  revert Hsize Hpos. generalize chunk_size as n. intros n Hsize Hpos.
  pose proof (read_chunks_count (length content) n content Hpos (le_n _)) as Hcount.
  cbv zeta in Hcount.
  assert (Hk : Z.of_nat (length (read_chunks (length content) n content))
               = ((Z.of_nat (length content) + 5242879) / 5242880)%Z).
  { apply Z.div_unique with
      (r := (Z.of_nat (length content) + 5242879
             - 5242880 * Z.of_nat (length (read_chunks (length content) n content)))%Z);
      nia. }
  split; [exact Hk|]. split; [|split].
  - intros ->. reflexivity.
  - intros Hne Hsmall.
    assert (Hlen : (0 < length content)%nat)
      by (destruct content; [congruence|simpl; lia]).
    assert (Hone : length (read_chunks (length content) n content) = 1%nat).
    { destruct (length (read_chunks (length content) n content)) as [|[|k]];
        [nia|reflexivity|nia]. }
    pose proof (read_chunks_concat (length content) n content Hpos (le_n _)) as Hcat.
    destruct (read_chunks (length content) n content) as [|chunk [|c l]];
      try discriminate Hone.
    simpl in Hcat. rewrite app_nil_r in Hcat. subst chunk. reflexivity.
  - intros i chunk Hi Hlast.
    rewrite (read_chunks_full _ _ _ _ _ Hpos Hi Hlast). exact Hsize.
Qed.

Lemma read_file_count_witness :
  read_file [Byte.x52; Byte.x49; Byte.x46; Byte.x46]
  = [[Byte.x52; Byte.x49; Byte.x46; Byte.x46]].
Proof.
  apply (proj1 (proj2 (proj2 (read_file_count [Byte.x52; Byte.x49; Byte.x46; Byte.x46])))).
  - discriminate.
  - simpl. lia.
Defined.

(** *** Runs for every amount of fuel *)

Section Traces.
Context (w : World).

(** A run only adds to the trace... *)
Lemma trace_extends {R} (t : itree ioE R) fuel gets tr :
  tr `prefix_of` trace (run w fuel gets tr t).
Proof.
  revert gets tr t. induction fuel as [|fuel IH]; intros gets tr t;
    rewrite run_unfold; destruct (observe t) as [r|t'|X e k]; simpl;
    try reflexivity.
  - apply IH.
  - destruct (answer w gets e) as [[x g] ev].
    etransitivity; [|apply IH]. apply prefix_app_r. reflexivity.
Qed.

(** ... and more fuel only adds to the trace of less fuel. *)
Lemma trace_more_fuel {R} (t : itree ioE R) fuel d gets tr :
  trace (run w fuel gets tr t) `prefix_of` trace (run w (fuel + d) gets tr t).
Proof.
  revert gets tr t. induction fuel as [|fuel IH]; intros gets tr t;
    rewrite !run_unfold; destruct (observe t) as [r|t'|X e k]; simpl;
    try reflexivity.
  - destruct d; [reflexivity|]. apply trace_extends.
  - destruct d; [reflexivity|].
    destruct (answer w gets e) as [[x g] ev].
    etransitivity; [|apply trace_extends]. apply prefix_app_r. reflexivity.
  - apply IH.
  - destruct (answer w gets e) as [[x g] ev]. apply IH.
Qed.

Lemma trace_after_poll (o : Outcome (exn + Json.t)) :
  trace (continue_with w o after_poll) = trace o.
Proof.
  destruct o as [[[e|transcript]|] g tr left]; unfold continue_with; simpl.
  - rewrite run_Ret. reflexivity.
  - rewrite run_lift. reflexivity.
  - reflexivity.
Qed.

Lemma gets_after_poll (o : Outcome (exn + Json.t)) :
  gets (continue_with w o after_poll) = gets o.
Proof.
  destruct o as [[[e|transcript]|] g tr left]; unfold continue_with; simpl.
  - rewrite run_Ret. reflexivity.
  - rewrite run_lift. reflexivity.
  - reflexivity.
Qed.

(** The trace of the loop, whatever the fuel and the answers: polls in
    vain, each with its sleep, and at most one more GET. *)
Lemma run_poll_trace self url fuel :
  forall gets tr,
  exists k,
    trace (run w fuel gets tr (poll self url))
    `prefix_of` (tr ++ pending_polls url k ++ [EvGet url])%list.
Proof.
  induction fuel as [fuel IH] using lt_wf_ind. intros gets tr.
  destruct fuel as [|fuel].
  { exists O. rewrite run_poll_0. simpl. apply prefix_app_r. reflexivity. }
  destruct (decide (Json.status (Response.json (get w gets url (headers self)))
                    = Some "completed")) as [Hc|Hc].
  { exists O. rewrite run_poll_completed by exact Hc. reflexivity. }
  destruct (decide (Json.status (Response.json (get w gets url (headers self)))
                    = Some "error")) as [He|He].
  { exists O. rewrite run_poll_error by exact He. reflexivity. }
  assert (Hp : pending (get w gets url (headers self))) by (split; assumption).
  destruct fuel as [|[|fuel]].
  - exists O. rewrite run_poll_unfold, run_poll_once_pending_1 by exact Hp. reflexivity.
  - exists 1%nat. rewrite run_poll_unfold, run_poll_once_pending by exact Hp.
    rewrite continue_with_value. simpl.
    apply prefix_app. exists [EvGet url]. reflexivity.
  - rewrite run_poll_pending by exact Hp.
    destruct (IH fuel ltac:(lia) (S gets) (tr ++ [EvGet url; EvSleep 30])%list) as [k Hk].
    exists (S k). rewrite <- app_assoc in Hk. exact Hk.
Qed.

End Traces.

(** *** The steps of [analyze_audio] *)

Section Steps.
Context (w : World) (self : AudioAnalyzer).

Lemma analyze_audio_unfold audio_path is_url :
  analyze_audio self audio_path is_url
  = bind (if negb is_url
          then bind (perform (os_path_exists audio_path)) (fun found => ret (negb found))
          else ret false)
      (fun missing : bool =>
         if missing
         then raise (FileNotFoundError ("Audio file not found: " ++ audio_path))
         else bind (try_except
                      (if is_url then ret audio_path else _upload_file self audio_path)
                      (fun e => raise (RuntimeError ("Failed to upload file: " ++ str e))))
                   (submit_and_poll self)).
Proof. reflexivity. Qed.

(** [analyze_audio] on a local file that exists, by the outcome of the
    upload. *)
Lemma run_analyze_audio_upload_failed audio_path fuel e gets' tr' fuel' :
  exists_ w audio_path = true ->
  run w fuel O [EvExists audio_path] (_upload_file self audio_path)
  = mkOutcome (Some (inl e)) gets' tr' fuel' ->
  execute w (S fuel) (analyze_audio self audio_path false)
  = mkOutcome (Some (inl (RuntimeError ("Failed to upload file: " ++ str e))))
              gets' tr' fuel'.
Proof.
  intros Hexists Hupload. unfold execute. rewrite analyze_audio_unfold.
  simpl negb. cbv iota.
  erewrite run_bind_value;
    [|erewrite run_bind_value;
        [apply run_ret|rewrite run_perform; simpl; reflexivity]].
  rewrite Hexists. simpl negb. cbv beta iota.
  erewrite run_bind_raise; [reflexivity|].
  erewrite run_try_except_raise by exact Hupload. apply run_raise.
Qed.

Lemma run_analyze_audio_uploaded audio_path fuel url gets' tr' fuel' :
  exists_ w audio_path = true ->
  run w fuel O [EvExists audio_path] (_upload_file self audio_path)
  = mkOutcome (Some (inr url)) gets' tr' fuel' ->
  execute w (S fuel) (analyze_audio self audio_path false)
  = run w fuel' gets' tr' (submit_and_poll self url).
Proof.
  intros Hexists Hupload. unfold execute. rewrite analyze_audio_unfold.
  simpl negb. cbv iota.
  erewrite run_bind_value;
    [|erewrite run_bind_value;
        [apply run_ret|rewrite run_perform; simpl; reflexivity]].
  rewrite Hexists. simpl negb. cbv beta iota.
  erewrite run_bind_value; [reflexivity|].
  apply run_try_except_value. exact Hupload.
Qed.

Lemma run_analyze_audio_url audio_path fuel :
  execute w fuel (analyze_audio self audio_path true)
  = run w fuel O [] (submit_and_poll self audio_path).
Proof.
  unfold execute. rewrite analyze_audio_unfold. simpl negb. cbv iota.
  erewrite run_bind_value by apply run_ret. cbv beta iota.
  erewrite run_bind_value; [reflexivity|].
  apply run_try_except_value. apply run_ret.
Qed.

(** The submission, by what the world answers. *)
Lemma run_submit_refused audio_url fuel gets tr :
  Response.status_code (submission_response w self audio_url) <> 200 ->
  run w (S fuel) gets tr (submit_and_poll self audio_url)
  = mkOutcome
      (Some (inl (RuntimeError
                    ("Failed to create transcription. Status code: "
                     ++ pretty (Response.status_code (submission_response w self audio_url))))))
      gets
      (tr ++ [EvPost (base_url self ++ "/transcript") (JsonBody (transcript_request audio_url))])
      fuel.
Proof.
  intros Hstatus. unfold submit_and_poll. cbv zeta.
  erewrite run_bind_value; [|rewrite run_perform; simpl; reflexivity].
  cbv beta. apply Z.eqb_neq in Hstatus.
  unfold submission_response, transcript_request in Hstatus.
  rewrite Hstatus. simpl negb. cbv iota. apply run_raise.
Qed.

Lemma run_submit_no_id audio_url fuel gets tr :
  Response.status_code (submission_response w self audio_url) = 200 ->
  Json.id (Response.json (submission_response w self audio_url)) = None ->
  run w (S fuel) gets tr (submit_and_poll self audio_url)
  = mkOutcome
      (Some (inl (RuntimeError "Failed to get transcription ID from API response")))
      gets
      (tr ++ [EvPost (base_url self ++ "/transcript") (JsonBody (transcript_request audio_url))])
      fuel.
Proof.
  intros Hstatus Hid. unfold submit_and_poll. cbv zeta.
  erewrite run_bind_value; [|rewrite run_perform; simpl; reflexivity].
  cbv beta. unfold submission_response, transcript_request in Hstatus, Hid.
  rewrite Hstatus. simpl negb. cbv iota. rewrite Hid.
  erewrite run_bind_raise by apply run_raise. reflexivity.
Qed.

Lemma run_submit_accepted audio_url transcript_id fuel gets tr :
  Response.status_code (submission_response w self audio_url) = 200 ->
  Json.id (Response.json (submission_response w self audio_url)) = Some transcript_id ->
  run w (S fuel) gets tr (submit_and_poll self audio_url)
  = continue_with w
      (run w fuel gets
           (tr ++ [EvPost (base_url self ++ "/transcript")
                          (JsonBody (transcript_request audio_url))])
           (poll self (polling_endpoint_of self transcript_id)))
      after_poll.
Proof.
  intros Hstatus Hid. unfold submit_and_poll. cbv zeta.
  erewrite run_bind_value; [|rewrite run_perform; simpl; reflexivity].
  cbv beta. unfold submission_response, transcript_request in Hstatus, Hid.
  rewrite Hstatus. simpl negb. cbv iota. rewrite Hid.
  erewrite run_bind_value by apply run_ret. cbv beta zeta.
  unfold bind. rewrite run_bind. reflexivity.
Qed.

(** Up to the submission. *)
Lemma run_analyze_audio_resolved audio_path is_url content audio_url fuel :
  source_resolved w self audio_path is_url content audio_url ->
  execute w (submission_steps is_url + fuel) (analyze_audio self audio_path is_url)
  = run w (S fuel) O (resolution_trace self audio_path is_url content)
        (submit_and_poll self audio_url).
Proof.
  unfold source_resolved. destruct is_url.
  - intros ->. apply run_analyze_audio_url.
  - intros (Hexists & Hfile & Hstatus & Hurl).
    change (submission_steps false + fuel)%nat with (S (S (S (S (S fuel))))).
    erewrite run_analyze_audio_uploaded; [reflexivity|exact Hexists|].
    rewrite (run_upload_file_posted w self _ _ _ _ _ Hfile). cbv zeta.
    rewrite Hstatus, Hurl. simpl negb. cbv iota. apply run_ret.
Qed.

Lemma run_analyze_audio_missing audio_path fuel :
  exists_ w audio_path = false ->
  execute w (S fuel) (analyze_audio self audio_path false)
  = mkOutcome (Some (inl (FileNotFoundError ("Audio file not found: " ++ audio_path))))
              O [EvExists audio_path] fuel.
Proof.
  intros Hmissing. unfold execute. rewrite analyze_audio_unfold.
  simpl negb. cbv iota.
  erewrite run_bind_value;
    [|erewrite run_bind_value;
        [apply run_ret|rewrite run_perform; simpl; reflexivity]].
  rewrite Hmissing. simpl negb. cbv beta iota. apply run_raise.
Qed.

Lemma run_submit_0 audio_url gets tr :
  run w O gets tr (submit_and_poll self audio_url) = mkOutcome None gets tr O.
Proof.
  unfold submit_and_poll, bind, perform. cbv zeta.
  rewrite run_bind, run_bind, run_trigger_0. reflexivity.
Qed.

(** The trace of the submission and of what follows it. *)
Lemma run_submit_trace audio_url fuel gets tr :
  exists transcript_id k,
    trace (run w fuel gets tr (submit_and_poll self audio_url))
    `prefix_of`
      (tr ++ [EvPost (base_url self ++ "/transcript")
                     (JsonBody (transcript_request audio_url))]
          ++ pending_polls (polling_endpoint_of self transcript_id) k
          ++ [EvGet (polling_endpoint_of self transcript_id)])%list.
Proof.
  destruct fuel as [|fuel].
  { exists "", O. rewrite run_submit_0. apply prefix_app_r. reflexivity. }
  destruct (decide (Response.status_code (submission_response w self audio_url) = 200))
    as [Hstatus|Hstatus].
  - destruct (Json.id (Response.json (submission_response w self audio_url)))
      as [transcript_id|] eqn:Hid.
    + rewrite (run_submit_accepted audio_url transcript_id fuel gets tr Hstatus Hid),
        trace_after_poll.
      destruct (run_poll_trace w self (polling_endpoint_of self transcript_id) fuel gets
                  (tr ++ [EvPost (base_url self ++ "/transcript")
                                 (JsonBody (transcript_request audio_url))])%list)
        as [k Hk].
      exists transcript_id, k. rewrite <- app_assoc in Hk. exact Hk.
    + exists "", O. rewrite (run_submit_no_id audio_url fuel gets tr Hstatus Hid). simpl.
      apply prefix_app. eexists. reflexivity.
  - exists "", O. rewrite (run_submit_refused audio_url fuel gets tr Hstatus). simpl.
    apply prefix_app. eexists. reflexivity.
Qed.

End Steps.

Lemma upload_is_not_submission base :
  String.eqb (base ++ "/upload") (base ++ "/transcript") = false.
Proof.
  induction base as [|a base IH]; [reflexivity|].
  simpl. rewrite Ascii.eqb_refl. exact IH.
Qed.

(** X8.  When the upload is answered with status 200 and a body without
    [upload_url], [_upload_file] raises [KeyError('upload_url')], after its
    one POST. *)
Theorem upload_file_without_url :
  forall w self file_path content,
    file w file_path = inr content ->
    let request := DataStream (read_file content) in
    let upload_response := post w (base_url self ++ "/upload") (headers self) request in
    Response.status_code upload_response = 200 ->
    Json.upload_url (Response.json upload_response) = None ->
    forall fuel,
      execute w (3 + fuel) (_upload_file self file_path)
      = mkOutcome (Some (inl (KeyError "upload_url"))) O
          [EvPostBegin (base_url self ++ "/upload"); EvOpen file_path;
           EvPost (base_url self ++ "/upload") request] fuel.
Proof.
  intros w self file_path content Hfile request upload_response Hstatus Hurl fuel.
  unfold execute. change (3 + fuel)%nat with (S (S (S fuel))).
  rewrite (run_upload_file_posted w self _ _ _ _ _ Hfile). cbv zeta.
  fold request upload_response. rewrite Hstatus, Hurl. simpl negb. cbv iota.
  apply run_raise.
Qed.

Lemma upload_file_without_url_witness :
  execute (mkWorld (fun _ => true) (fun _ => inr [Byte.x52])
                   (fun _ _ _ => Response.mk 200 "{}" Json.empty)
                   (fun _ _ _ => Response.mk 200 "{}" queued))
          3 (_upload_file demo_self "talk.mp3")
  = mkOutcome (Some (inl (KeyError "upload_url"))) O
      [EvPostBegin "https://api.assemblyai.com/v2/upload";
       EvOpen "talk.mp3";
       EvPost "https://api.assemblyai.com/v2/upload" (DataStream (read_file [Byte.x52]))]
      O.
Proof.
  apply (upload_file_without_url
           (mkWorld (fun _ => true) (fun _ => inr [Byte.x52])
                    (fun _ _ _ => Response.mk 200 "{}" Json.empty)
                    (fun _ _ _ => Response.mk 200 "{}" queued))
           demo_self "talk.mp3" [Byte.x52]); reflexivity.
Defined.

(** X9.  A failure of the upload ends [analyze_audio] with
    [RuntimeError("Failed to upload file: " + str(e))], where [e] is the
    exception that came out of [_upload_file]: the [ConnectionError] that
    [requests.post] raises when the file cannot be opened, whose [str] is
    [('Connection aborted.', <repr of the OSError>)]; the
    [RuntimeError("Upload failed: " + body)] of a status other than 200; or
    the [KeyError] of a body without [upload_url], whose [str] is
    ['upload_url'] in quotes.  When the file cannot be opened the upload
    request has been begun all the same, and no body follows.  No job is
    submitted and nothing is polled. *)
Theorem analyze_audio_upload_failures :
  forall w self audio_path,
    exists_ w audio_path = true ->
    let quiet (o : Outcome (exn + list AudioSegment)) :=
      List.filter (fun ev => is_submission self ev || is_poll ev) (trace o) = []
      /\ gets o = O in
    (forall e,
       file w audio_path = inl e ->
       forall fuel,
         let o := execute w (3 + fuel) (analyze_audio self audio_path false) in
         result o
         = Some (inl (RuntimeError ("Failed to upload file: ('Connection aborted.', "
                                    ++ os_repr e ++ ")")))
         /\ trace o = [EvExists audio_path; EvPostBegin (base_url self ++ "/upload");
                       EvOpen audio_path]
         /\ quiet o)
    /\ (forall content,
          file w audio_path = inr content ->
          let upload_response :=
            post w (base_url self ++ "/upload") (headers self)
                 (DataStream (read_file content)) in
          (Response.status_code upload_response <> 200 ->
           forall fuel,
             let o := execute w (4 + fuel) (analyze_audio self audio_path false) in
             result o
             = Some (inl (RuntimeError ("Failed to upload file: Upload failed: "
                                        ++ Response.text upload_response)))
             /\ quiet o)
          /\ (Response.status_code upload_response = 200 ->
              Json.upload_url (Response.json upload_response) = None ->
              forall fuel,
                let o := execute w (4 + fuel) (analyze_audio self audio_path false) in
                result o = Some (inl (RuntimeError "Failed to upload file: 'upload_url'"))
                /\ quiet o)).
Proof.
  intros w self audio_path Hexists quiet. split.
  - intros e Hfile fuel o. subst o quiet. cbv beta.
    change (3 + fuel)%nat with (S (S (S fuel))).
    rewrite (run_analyze_audio_upload_failed w self _ _
               (ConnectionError ("('Connection aborted.', " ++ os_repr e ++ ")")) O
               [EvExists audio_path; EvPostBegin (base_url self ++ "/upload");
                EvOpen audio_path] fuel Hexists
               (run_upload_file_unreadable w self _ _ _ _ _ Hfile)).
    repeat split.
  - intros content Hfile upload_response. split.
    + intros Hstatus fuel o. subst o quiet. cbv beta.
      change (4 + fuel)%nat with (S (S (S (S fuel)))).
      rewrite (run_analyze_audio_upload_failed w self _ _
                 (RuntimeError ("Upload failed: " ++ Response.text upload_response)) O
                 [EvExists audio_path; EvPostBegin (base_url self ++ "/upload");
                  EvOpen audio_path;
                  EvPost (base_url self ++ "/upload") (DataStream (read_file content))]
                 fuel Hexists).
      * simpl. rewrite upload_is_not_submission. repeat split.
      * rewrite (run_upload_file_posted w self _ _ _ _ _ Hfile). cbv zeta.
        fold upload_response. apply Z.eqb_neq in Hstatus. rewrite Hstatus.
        simpl negb. cbv iota. apply run_raise.
    + intros Hstatus Hurl fuel o. subst o quiet. cbv beta.
      change (4 + fuel)%nat with (S (S (S (S fuel)))).
      rewrite (run_analyze_audio_upload_failed w self _ _ (KeyError "upload_url") O
                 [EvExists audio_path; EvPostBegin (base_url self ++ "/upload");
                  EvOpen audio_path;
                  EvPost (base_url self ++ "/upload") (DataStream (read_file content))]
                 fuel Hexists).
      * simpl. rewrite upload_is_not_submission. repeat split.
      * rewrite (run_upload_file_posted w self _ _ _ _ _ Hfile). cbv zeta.
        fold upload_response. rewrite Hstatus, Hurl.
        simpl negb. cbv iota. apply run_raise.
Qed.

Lemma analyze_audio_upload_failures_witness :
  result (execute directory_world 3 (analyze_audio demo_self "talk" false))
  = Some (inl (RuntimeError
                 "Failed to upload file: ('Connection aborted.', IsADirectoryError(21, 'Is a directory'))"))
  /\ result (execute refusing_world 4 (analyze_audio demo_self "talk.mp3" false))
     = Some (inl (RuntimeError "Failed to upload file: Upload failed: Unauthorized")).
Proof.
  split.
  - apply (proj1 (analyze_audio_upload_failures directory_world demo_self "talk" eq_refl)
                 (mk_os_error "IsADirectoryError(21, 'Is a directory')") eq_refl O).
  - apply (proj1 (proj2 (analyze_audio_upload_failures refusing_world demo_self "talk.mp3"
                           eq_refl)
                        [Byte.x52; Byte.x49; Byte.x46; Byte.x46] eq_refl)).
    discriminate.
Defined.

Lemma submission_trace_split self audio_path is_url content audio_url :
  submission_trace self audio_path is_url content audio_url
  = (resolution_trace self audio_path is_url content
     ++ [EvPost (base_url self ++ "/transcript")
                (JsonBody (transcript_request audio_url))])%list.
Proof. reflexivity. Qed.

Lemma submission_trace_no_poll self audio_path is_url content audio_url :
  List.filter is_poll (submission_trace self audio_path is_url content audio_url) = [].
Proof. destruct is_url; reflexivity. Qed.

(** X10.  When the source is resolved and the submission of the job is
    answered with a status other than 200, [analyze_audio] raises
    [RuntimeError("Failed to create transcription. Status code: " + code)],
    the code in decimal, and polls nothing. *)
Theorem analyze_audio_submission_refused :
  forall w self audio_path is_url content audio_url,
    source_resolved w self audio_path is_url content audio_url ->
    let response := submission_response w self audio_url in
    Response.status_code response <> 200 ->
    forall fuel,
      let o := execute w (submission_steps is_url + fuel)
                 (analyze_audio self audio_path is_url) in
      o = mkOutcome
            (Some (inl (RuntimeError ("Failed to create transcription. Status code: "
                                      ++ pretty (Response.status_code response)))))
            O (submission_trace self audio_path is_url content audio_url) fuel
      /\ List.filter is_poll (trace o) = [].
Proof.
  intros w self audio_path is_url content audio_url Hsource response Hstatus fuel o.
  assert (Ho : o = mkOutcome
            (Some (inl (RuntimeError ("Failed to create transcription. Status code: "
                                      ++ pretty (Response.status_code response)))))
            O (submission_trace self audio_path is_url content audio_url) fuel).
  { subst o. rewrite (run_analyze_audio_resolved w self _ _ _ _ fuel Hsource).
    rewrite (run_submit_refused w self audio_url fuel _ _ Hstatus).
    rewrite submission_trace_split. reflexivity. }
  split; [exact Ho|]. rewrite Ho. apply submission_trace_no_poll.
Qed.

Lemma analyze_audio_submission_refused_witness :
  result (execute refusing_world 1 (analyze_audio demo_self "https://x.example/a.mp3" true))
  = Some (inl (RuntimeError "Failed to create transcription. Status code: 401")).
Proof.
  exact (f_equal result
           (proj1 (analyze_audio_submission_refused refusing_world demo_self
                     "https://x.example/a.mp3" true [] "https://x.example/a.mp3"
                     eq_refl ltac:(discriminate) O))).
Defined.

(** X11.  When the source is resolved and the submission is answered with
    status 200 and a body without [id], [analyze_audio] raises
    [RuntimeError("Failed to get transcription ID from API response")], the
    [KeyError] caught, and polls nothing. *)
Theorem analyze_audio_submission_without_id :
  forall w self audio_path is_url content audio_url,
    source_resolved w self audio_path is_url content audio_url ->
    let response := submission_response w self audio_url in
    Response.status_code response = 200 ->
    Json.id (Response.json response) = None ->
    forall fuel,
      let o := execute w (submission_steps is_url + fuel)
                 (analyze_audio self audio_path is_url) in
      o = mkOutcome
            (Some (inl (RuntimeError "Failed to get transcription ID from API response")))
            O (submission_trace self audio_path is_url content audio_url) fuel
      /\ List.filter is_poll (trace o) = [].
Proof.
  intros w self audio_path is_url content audio_url Hsource response Hstatus Hid fuel o.
  assert (Ho : o = mkOutcome
            (Some (inl (RuntimeError "Failed to get transcription ID from API response")))
            O (submission_trace self audio_path is_url content audio_url) fuel).
  { subst o. rewrite (run_analyze_audio_resolved w self _ _ _ _ fuel Hsource).
    rewrite (run_submit_no_id w self audio_url fuel _ _ Hstatus Hid).
    rewrite submission_trace_split. reflexivity. }
  split; [exact Ho|]. rewrite Ho. apply submission_trace_no_poll.
Qed.

Lemma analyze_audio_submission_without_id_witness :
  result (execute (mkWorld (fun _ => true) (fun _ => inr [Byte.x52])
                           (fun _ _ _ => Response.mk 200 "{}" Json.empty)
                           (fun _ _ _ => Response.mk 200 "{}" queued))
                  1 (analyze_audio demo_self "https://x.example/a.mp3" true))
  = Some (inl (RuntimeError "Failed to get transcription ID from API response")).
Proof.
  exact (f_equal result
           (proj1 (analyze_audio_submission_without_id
                     (mkWorld (fun _ => true) (fun _ => inr [Byte.x52])
                              (fun _ _ _ => Response.mk 200 "{}" Json.empty)
                              (fun _ _ _ => Response.mk 200 "{}" queued))
                     demo_self "https://x.example/a.mp3" true []
                     "https://x.example/a.mp3" eq_refl eq_refl eq_refl O))).
Defined.

(** X12.  The order of events.  In every world and after any number of
    steps, the trace of [analyze_audio] is a beginning of the sequence:
    existence check, the upload request begun, the file opened, the chunks
    posted (these four for a local file only), submission, then polls each
    followed by a sleep of 30 seconds, then a last poll.  So no request is
    begun before the file is checked, the file is opened after the upload
    request is begun and before its body is sent, nothing is polled before
    the job is submitted, every sleep lasts 30 seconds and follows a poll,
    and all polls go to the one URL [base_url/transcript/id]. *)
Theorem analyze_audio_protocol :
  forall w self audio_path is_url fuel,
  exists content audio_url transcript_id k,
    trace (execute w fuel (analyze_audio self audio_path is_url))
    `prefix_of` protocol_trace self audio_path is_url content audio_url transcript_id k
    /\ (is_url = true -> audio_url = audio_path).
Proof.
  intros w self audio_path is_url fuel. unfold protocol_trace.
  destruct is_url.
  { rewrite run_analyze_audio_url.
    destruct (run_submit_trace w self audio_path fuel O []) as (transcript_id & k & Hk).
    exists [], audio_path, transcript_id, k. split; [exact Hk|reflexivity]. }
  assert (Hlong :
    exists content audio_url transcript_id k,
      trace (execute w (fuel + 5) (analyze_audio self audio_path false))
      `prefix_of`
        (submission_trace self audio_path false content audio_url
         ++ pending_polls (polling_endpoint_of self transcript_id) k
         ++ [EvGet (polling_endpoint_of self transcript_id)])%list).
  { replace (fuel + 5)%nat with (S (S (S (S (S fuel))))) by lia.
    destruct (exists_ w audio_path) eqn:Hexists.
    2:{ exists [], "", "", O. rewrite (run_analyze_audio_missing w self _ _ Hexists).
        simpl. eexists. reflexivity. }
    destruct (file w audio_path) as [e|content] eqn:Hfile.
    { exists [], "", "", O.
      rewrite (run_analyze_audio_upload_failed w self _ _
                 (ConnectionError ("('Connection aborted.', " ++ os_repr e ++ ")")) O
                 [EvExists audio_path; EvPostBegin (base_url self ++ "/upload");
                  EvOpen audio_path] (S (S fuel)) Hexists
                 (run_upload_file_unreadable w self _ _ _ _ _ Hfile)).
      simpl. eexists. reflexivity. }
    pose proof (run_upload_file_posted w self audio_path content (S fuel) O
                  [EvExists audio_path] Hfile) as Hposted.
    cbv zeta in Hposted.
    destruct (negb (Response.status_code
                      (post w (base_url self ++ "/upload") (headers self)
                            (DataStream (read_file content))) =? 200)) eqn:Hstatus.
    { rewrite run_raise in Hposted.
      exists content, "", "", O.
      rewrite (run_analyze_audio_upload_failed w self _ _ _ _ _ _ Hexists Hposted).
      simpl. eexists. reflexivity. }
    destruct (Json.upload_url
                (Response.json (post w (base_url self ++ "/upload") (headers self)
                                     (DataStream (read_file content)))))
      as [audio_url|] eqn:Hurl.
    2:{ rewrite run_raise in Hposted.
        exists content, "", "", O.
        rewrite (run_analyze_audio_upload_failed w self _ _ _ _ _ _ Hexists Hposted).
        simpl. eexists. reflexivity. }
    rewrite run_ret in Hposted.
    rewrite (run_analyze_audio_uploaded w self _ _ _ _ _ _ Hexists Hposted).
    destruct (run_submit_trace w self audio_url (S fuel) O
                ([EvExists audio_path]
                 ++ [EvPostBegin (base_url self ++ "/upload");
                     EvOpen audio_path;
                     EvPost (base_url self ++ "/upload")
                            (DataStream (read_file content))])%list)
      as (transcript_id & k & Hk).
    exists content, audio_url, transcript_id, k. exact Hk. }
  destruct Hlong as (content & audio_url & transcript_id & k & Hk).
  exists content, audio_url, transcript_id, k. split; [|discriminate].
  etransitivity; [|exact Hk]. apply trace_more_fuel.
Qed.

Lemma pending_polls_no_file_no_post url k tail :
  List.filter is_file_access (pending_polls url k ++ tail)
  = List.filter is_file_access tail
  /\ List.filter is_post (pending_polls url k ++ tail) = List.filter is_post tail
  /\ List.filter is_upload (pending_polls url k ++ tail) = List.filter is_upload tail.
Proof. induction k as [|k IH]; [repeat split; reflexivity|exact IH]. Qed.

(** X13.  With [is_url=True] the file system is left alone and nothing is
    uploaded: in every world and after any number of steps, the trace of
    [analyze_audio] holds no existence check and no opening of a file, no
    upload begun and no chunks posted, and its only POST, if any, is the
    submission of the given URL itself. *)
Theorem analyze_audio_url_untouched :
  forall w self audio_url fuel,
    let o := execute w fuel (analyze_audio self audio_url true) in
    List.filter is_file_access (trace o) = []
    /\ List.filter is_upload (trace o) = []
    /\ List.filter is_post (trace o)
       `prefix_of` [EvPost (base_url self ++ "/transcript")
                           (JsonBody (transcript_request audio_url))].
Proof.
  intros w self audio_url fuel o. subst o.
  rewrite run_analyze_audio_url.
  destruct (run_submit_trace w self audio_url fuel O []) as (transcript_id & k & [rest Hk]).
  simpl app in Hk.
  pose proof (pending_polls_no_file_no_post (polling_endpoint_of self transcript_id) k)
    as Hpolls.
  assert (Hfull :
    List.filter is_file_access
      (trace (run w fuel O [] (submit_and_poll self audio_url)) ++ rest) = []
    /\ List.filter is_upload
         (trace (run w fuel O [] (submit_and_poll self audio_url)) ++ rest) = []
    /\ List.filter is_post
         (trace (run w fuel O [] (submit_and_poll self audio_url)) ++ rest)
       = [EvPost (base_url self ++ "/transcript")
                 (JsonBody (transcript_request audio_url))]).
  { rewrite <- Hk. simpl.
    destruct (Hpolls [EvGet (polling_endpoint_of self transcript_id)]) as (-> & -> & ->).
    repeat split; reflexivity. }
  rewrite !List.filter_app in Hfull. destruct Hfull as (Hfs & Hups & Hposts).
  split; [|split].
  - apply app_eq_nil in Hfs. tauto.
  - apply app_eq_nil in Hups. tauto.
  - rewrite <- Hposts. apply prefix_app_r. reflexivity.
Qed.

End AnalyzerExtras.

(** ** The headers of the requests *)

Module HeaderFacts.
Import RunFacts.
#[local] Arguments run : simpl never.

Lemma everyF_mon {R} P (r r' : itree ioE R -> Prop) ot :
  everyF P r ot -> (forall t, r t -> r' t) -> everyF P r' ot.
Proof.
  destruct ot as [v|t|X e k]; simpl; [auto|auto|].
  intros [HP Hk] Hr. split; [exact HP|]. intros x. apply Hr, Hk.
Qed.

Lemma every_mon {R} P : monotone1 (@every_ R P).
Proof. intros t r r' H Hr. unfold every_ in *. eapply everyF_mon; eauto. Qed.
#[local] Hint Resolve every_mon : paco.

Lemma every_Ret {R} P (v : R) : every P (Ret v).
Proof. pfold. exact Logic.I. Qed.

Lemma every_trigger {X} P (e : ioE X) : P X e -> every P (ITree.trigger e).
Proof.
  intros HP. pfold. unfold every_. simpl. split; [exact HP|].
  intros x. left. apply every_Ret.
Qed.

Lemma every_bind {A B} P (t : itree ioE A) (k : A -> itree ioE B) :
  every P t -> (forall x, every P (k x)) -> every P (ITree.bind t k).
Proof.
  intros Ht Hk. revert t Ht. pcofix CIH. intros t Ht.
  pfold. unfold every_.
  change (observe (ITree.bind t k))
    with (observe (match observe t with
                   | RetF r => k r
                   | TauF t' => Tau (ITree.bind t' k)
                   | VisF e h => Vis e (fun x => ITree.bind (h x) k)
                   end)).
  punfold Ht. unfold every_ in Ht.
  destruct (observe t) as [v|t'|X e h]; simpl in *.
  - specialize (Hk v). punfold Hk. unfold every_ in Hk.
    eapply everyF_mon; [exact Hk|].
    intros t0 [H|[]]. left. eapply paco1_mon; [exact H|]. intros ? [].
  - destruct Ht as [Ht|[]]. right. apply CIH. exact Ht.
  - destruct Ht as [HP Hh]. split; [exact HP|].
    intros x. destruct (Hh x) as [H|[]]. right. apply CIH. exact H.
Qed.

Lemma every_iter {I R} P (body : I -> itree ioE (I + R)) :
  (forall i, every P (body i)) -> forall i, every P (ITree.iter body i).
Proof.
  intros Hbody.
  set (K := fun lr : I + R => match lr with
                              | inl l => Tau (ITree.iter body l)
                              | inr r => Ret r
                              end).
  assert (Hall : forall t',
            (exists t, every P t /\ t' = ITree.bind t K)
            \/ (exists i, t' = ITree.iter body i) ->
            every P t').
  { pcofix CIH. intros t' H.
    assert (Hstep : forall t, every P t ->
              everyF P (upaco1 (every_ P) r) (observe (ITree.bind t K))).
    { intros t Ht.
      change (observe (ITree.bind t K))
        with (observe (match observe t with
                       | RetF r => K r
                       | TauF t' => Tau (ITree.bind t' K)
                       | VisF e h => Vis e (fun x => ITree.bind (h x) K)
                       end)).
      punfold Ht. unfold every_ in Ht.
      destruct (observe t) as [[l|v]|t1|X e h]; simpl in *.
      - right. apply CIH. right. eexists. reflexivity.
      - constructor.
      - destruct Ht as [Ht|[]]. right. apply CIH. left.
        eexists. split; [exact Ht|reflexivity].
      - destruct Ht as [HP Hh]. split; [exact HP|].
        intros x. destruct (Hh x) as [H'|[]]. right. apply CIH. left.
        eexists. split; [exact H'|reflexivity]. }
    pfold. unfold every_.
    destruct H as [(t & Ht & ->)|(i & ->)].
    - apply Hstep, Ht.
    - change (observe (ITree.iter body i)) with (observe (ITree.bind (body i) K)).
      apply Hstep, Hbody. }
  intros i. apply Hall. right. eexists. reflexivity.
Qed.

(** The Python layer. *)
Lemma every_ret {R} P (v : R) : every P (ret v).
Proof. apply every_Ret. Qed.

Lemma every_raise {R} P (e : exn) : every P (raise e : py R).
Proof. apply every_Ret. Qed.

Lemma every_lift {R} P (v : exn + R) : every P (lift v).
Proof. apply every_Ret. Qed.

Lemma every_perform {X} P (e : ioE X) : P X e -> every P (perform e).
Proof.
  intros HP. apply every_bind; [apply every_trigger, HP|].
  intros x. apply every_Ret.
Qed.

Lemma every_pybind {A B} P (m : py A) (k : A -> py B) :
  every P m -> (forall a, every P (k a)) -> every P (bind m k).
Proof.
  intros Hm Hk. apply every_bind; [exact Hm|].
  intros [e|a]; [apply every_Ret|apply Hk].
Qed.

Lemma every_try_except {A} P (m : py A) (h : exn -> py A) :
  every P m -> (forall e, every P (h e)) -> every P (try_except m h).
Proof.
  intros Hm Hh. apply every_bind; [exact Hm|].
  intros [e|a]; [apply Hh|apply every_Ret].
Qed.

(** The requests of the program carry the headers of the analyzer. *)
Lemma every_upload_file self file_path :
  every (carries (headers self)) (_upload_file self file_path).
Proof.
  unfold _upload_file.
  apply every_pybind.
  { unfold requests_post_data, read_file_generator.
    apply every_bind; [apply every_trigger; reflexivity|]. intros [].
    apply every_bind.
    - apply every_bind; [apply every_trigger; exact Logic.I|].
      intros [e|content]; apply every_Ret.
    - intros [e|chunks]; [apply every_raise|apply every_perform; reflexivity]. }
  intros upload_response.
  destruct (negb _); [apply every_raise|].
  destruct (Json.upload_url _); [apply every_ret|apply every_raise].
Qed.

Lemma every_poll self url : every (carries (headers self)) (poll self url).
Proof.
  unfold poll. apply every_iter. intros []. unfold poll_once.
  apply every_bind; [apply every_trigger; reflexivity|]. intros response. cbv zeta.
  destruct (decide _); [apply every_Ret|].
  destruct (decide _); [apply every_Ret|].
  apply every_bind; [apply every_trigger; exact Logic.I|].
  intros []. apply every_Ret.
Qed.

Lemma every_analyze_audio self audio_path is_url :
  every (carries (headers self)) (analyze_audio self audio_path is_url).
Proof.
  unfold analyze_audio.
  apply every_pybind.
  { destruct (negb is_url); [|apply every_ret].
    apply every_pybind; [apply every_perform; exact Logic.I|].
    intros found. apply every_ret. }
  intros [|]; [apply every_raise|].
  apply every_pybind.
  { apply every_try_except; [|intros e; apply every_raise].
    destruct is_url; [apply every_ret|apply every_upload_file]. }
  intros audio_url. cbv zeta.
  apply every_pybind; [apply every_perform; reflexivity|]. intros response.
  destruct (negb _); [apply every_raise|].
  apply every_pybind.
  { destruct (Json.id _); [apply every_ret|apply every_raise]. }
  intros transcript_id.
  apply every_pybind; [apply every_poll|].
  intros transcript. apply every_lift.
Qed.

(** Two worlds that answer the events of a program alike run it alike. *)
Lemma run_same_answers {R} P (w w' : World) (t : itree ioE R) :
  every P t ->
  (forall X (e : ioE X) gets, P X e -> answer w gets e = answer w' gets e) ->
  forall fuel gets tr, run w fuel gets tr t = run w' fuel gets tr t.
Proof.
  intros Ht Hsame fuel. revert t Ht.
  induction fuel as [|fuel IH]; intros t Ht gets tr;
    rewrite (run_unfold w), (run_unfold w');
    punfold Ht; unfold every_ in Ht;
    destruct (observe t) as [v|t'|X e k]; simpl in *; try reflexivity.
  - destruct Ht as [Ht|[]]. apply IH, Ht.
  - destruct Ht as [HP Hk]. rewrite <- (Hsame X e gets HP).
    destruct (answer w gets e) as [[x g] ev].
    destruct (Hk x) as [Hx|[]]. apply IH, Hx.
Qed.

Lemma same_answers_carries hs w w' :
  same_answers hs w w' ->
  forall X (e : ioE X) gets, carries hs X e -> answer w gets e = answer w' gets e.
Proof.
  intros (Hexists & Hfile & Hpost & Hget) X e gets Hc.
  destruct e; simpl in *; subst;
    rewrite ?Hexists, ?Hfile, ?Hpost, ?Hget; reflexivity.
Qed.

(** X14.  The API key.  [AudioAnalyzer()] raises [ValueError] when the key
    is missing from the environment or empty; built with the key [key], the
    analyzer sends the header [authorization: key], and no other header,
    with every request of [analyze_audio] and of [_upload_file]: the
    upload, the submission and every poll.  What the service would answer
    to a request with other headers plays no part in any run. *)
Theorem requests_carry_the_key :
  (forall getenv,
     getenv = None \/ getenv = Some "" ->
     AudioAnalyzer_init getenv
     = inl (ValueError "AssemblyAI API key not found in environment variables"))
  /\ (forall key self,
        AudioAnalyzer_init (Some key) = inr self ->
        key <> ""
        /\ headers self = {[ "authorization" := key ]}
        /\ (forall audio_path is_url,
              every (carries {[ "authorization" := key ]})
                    (analyze_audio self audio_path is_url))
        /\ (forall file_path,
              every (carries {[ "authorization" := key ]}) (_upload_file self file_path))
        /\ (forall w w',
              same_answers {[ "authorization" := key ]} w w' ->
              forall audio_path is_url fuel,
                execute w fuel (analyze_audio self audio_path is_url)
                = execute w' fuel (analyze_audio self audio_path is_url))).
Proof.
  split.
  { intros getenv [-> | ->]; reflexivity. }
  intros key self Hinit.
  assert (Hkey : key <> "" /\ headers self = {[ "authorization" := key ]}).
  { destruct key as [|a key]; [discriminate|].
    simpl in Hinit. injection Hinit as <-. split; [discriminate|reflexivity]. }
  destruct Hkey as [Hne Hheaders]. rewrite <- Hheaders.
  split; [exact Hne|]. split; [reflexivity|].
  split; [intros; apply every_analyze_audio|].
  split; [intros; apply every_upload_file|].
  intros w w' Hsame audio_path is_url fuel. unfold execute.
  apply (run_same_answers (carries (headers self))).
  - apply every_analyze_audio.
  - apply same_answers_carries, Hsame.
Qed.

Lemma requests_carry_the_key_witness :
  AudioAnalyzer_init None
  = inl (ValueError "AssemblyAI API key not found in environment variables")
  /\ execute (demo_world true (completed (Some [bare_chapter]))) 15
             (analyze_audio demo_self "talk.mp3" false)
     = execute (strict_world (completed (Some [bare_chapter]))) 15
               (analyze_audio demo_self "talk.mp3" false).
Proof.
  split.
  - apply (proj1 requests_carry_the_key). left. reflexivity.
  - apply (proj2 requests_carry_the_key "key" demo_self eq_refl).
    repeat split; intros; simpl; rewrite decide_True by reflexivity; reflexivity.
Defined.

End HeaderFacts.
